(** * RedditArchiver: a shallow embedding of [RedditArchiver.py]

    The development follows the pipeline of the program:
    identifier extraction ([extract_id]), tree reconstruction
    ([download_submission]), rendering ([generate_html]) and the
    surrounding command line ([scrape_url], [main]). *)

From Stdlib Require Import String Ascii List ZArith Lia Bool.
From Stdlib Require Import Numbers.DecimalString Sorting.Sorted Sorting.Permutation.
From stdpp Require Import gmap strings list.
From Equations Require Import Equations.

Local Open Scope string_scope.
Set Warnings "-register-all".

(** ** Strings *)

Module Str.

(** [s[:n]] *)
Fixpoint take (n : nat) (s : string) : string :=
  match n, s with
  | S k, String c r => String c (take k r)
  | _, _ => ""
  end.

(** [s[n:]] *)
Fixpoint drop (n : nat) (s : string) : string :=
  match n, s with
  | S k, String _ r => drop k r
  | _, _ => s
  end.

(** [s.startswith(p)] *)
Fixpoint starts (p s : string) : bool :=
  match p, s with
  | "", _ => true
  | String a p', String b s' => if Ascii.eqb a b then starts p' s' else false
  | String _ _, "" => false
  end.

(** [p in s] *)
Fixpoint occurs (p s : string) : bool :=
  starts p s ||
  match s with
  | "" => false
  | String _ r => occurs p r
  end.

Fixpoint all (f : ascii -> bool) (s : string) : bool :=
  match s with
  | "" => true
  | String c r => f c && all f r
  end.

(** [''.join(l)] *)
Fixpoint join (l : list string) : string :=
  match l with
  | [] => ""
  | x :: r => x ++ join r
  end.

(** [s[-n:]] *)
Definition last_n (n : nat) (s : string) : string :=
  drop (String.length s - n) s.

(** [s[:-n]] for [0 < n] *)
Definition drop_last (n : nat) (s : string) : string :=
  take (String.length s - n) s.

(** [s.replace(old, new)] for a non-empty [old]: one pass from the left,
    occurrences do not overlap.  [skip] counts the characters of an
    occurrence still to be passed over. *)
Fixpoint replace_from (old new : string) (skip : nat) (s : string) : string :=
  match s with
  | "" => ""
  | String c r =>
      match skip with
      | S k => replace_from old new k r
      | O =>
          if starts old s
          then new ++ replace_from old new (String.length old - 1) r
          else String c (replace_from old new 0 r)
      end
  end.

Definition replace (old new s : string) : string := replace_from old new 0 s.

End Str.

(** ** Regular expressions

    The fragment of Python's [re] the program uses, with the backtracking
    semantics of [re.search]: alternatives and greedy repetitions are tried
    in order and the first complete match wins. *)

Module Re.

Inductive regex :=
| Eps                             (* the empty pattern *)
| Bos                             (* ^ *)
| Eos                             (* $ *)
| Lit (c : ascii)
| Plus1 (p : ascii -> bool)       (* [class]+ *)
| Cat (r1 r2 : regex)
| Alt (r1 r2 : regex)             (* r1|r2 *)
| Opt (r : regex)                 (* r? *)
| Group (r : regex).              (* (r), the capture group *)

(** a literal word *)
Fixpoint word (w : string) : regex :=
  match w with
  | "" => Eps
  | String c w' => Cat (Lit c) (word w')
  end.

(** the concatenation of a list of patterns *)
Fixpoint seq (l : list regex) : regex :=
  match l with
  | [] => Eps
  | r :: l' => Cat r (seq l')
  end.

(** [$] without MULTILINE: the end, or just before a final newline. *)
Definition at_eos (s : string) : bool :=
  match s with
  | "" => true
  | String c "" => Ascii.eqb c "010"
  | _ => false
  end.

Section Matcher.
Context {A : Type}.

(** a continuation receives the offset reached, the rest of the input
    and the text of the capture group *)
Definition cont := nat -> string -> option string -> option A.

Fixpoint star (p : ascii -> bool) (off : nat) (s : string)
         (k : nat -> string -> option A) : option A :=
  match s with
  | String c r =>
      if p c then
        match star p (S off) r k with
        | Some x => Some x
        | None => k off s
        end
      else k off s
  | "" => k off s
  end.

Definition plus (p : ascii -> bool) (off : nat) (s : string)
           (k : nat -> string -> option A) : option A :=
  match s with
  | String c r => if p c then star p (S off) r k else None
  | "" => None
  end.

Fixpoint rmatch (r : regex) (off : nat) (s : string) (cap : option string)
         (k : cont) : option A :=
  match r with
  | Eps => k off s cap
  | Bos => if Nat.eqb off 0 then k off s cap else None
  | Eos => if at_eos s then k off s cap else None
  | Lit c =>
      match s with
      | String c' s' => if Ascii.eqb c c' then k (S off) s' cap else None
      | "" => None
      end
  | Plus1 p => plus p off s (fun off' s' => k off' s' cap)
  | Cat r1 r2 =>
      rmatch r1 off s cap (fun off' s' cap' => rmatch r2 off' s' cap' k)
  | Alt r1 r2 =>
      match rmatch r1 off s cap k with
      | Some x => Some x
      | None => rmatch r2 off s cap k
      end
  | Opt r1 =>
      match rmatch r1 off s cap k with
      | Some x => Some x
      | None => k off s cap
      end
  | Group r1 =>
      rmatch r1 off s cap
             (fun off' s' _ => k off' s' (Some (Str.take (off' - off) s)))
  end.
End Matcher.

(** A match object, reduced to [group(1)] ([None] when the group took no
    part in the match). *)
Definition match_obj := option string.

Definition match_at (r : regex) (off : nat) (s : string) : option match_obj :=
  rmatch r off s None (fun _ _ cap => Some cap).

(** [re.search]: the leftmost start offset at which the pattern matches *)
Fixpoint search_from (r : regex) (off : nat) (s : string) : option match_obj :=
  match match_at r off s with
  | Some m => Some m
  | None =>
      match s with
      | String _ s' => search_from r (S off) s'
      | "" => None
      end
  end.

Definition search (r : regex) (s : string) : option match_obj :=
  search_from r 0 s.

End Re.

(** ** [extract_id] *)

Definition in_range (lo hi : nat) (c : ascii) : bool :=
  (lo <=? nat_of_ascii c)%nat && (nat_of_ascii c <=? hi)%nat.

(** [[a-z0-9]] *)
Definition id_char (c : ascii) : bool :=
  in_range 97 122 c || in_range 48 57 c.

(** [[a-zA-Z0-9\-_]] *)
Definition sub_char (c : ascii) : bool :=
  in_range 97 122 c || in_range 65 90 c || in_range 48 57 c
  || Ascii.eqb c "-" || Ascii.eqb c "_".

(** [https?:\/\/(?:old|new|www)?\.reddit\.com\/] *)
Definition reddit_host : list Re.regex :=
  [ Re.word "http"; Re.Opt (Re.Lit "s"); Re.word "://";
    Re.Opt (Re.Alt (Re.word "old") (Re.Alt (Re.word "new") (Re.word "www")));
    Re.word ".reddit.com/" ].

(** [^([a-z0-9]+)/?$] *)
Definition regex_bare : Re.regex :=
  Re.seq [ Re.Bos; Re.Group (Re.Plus1 id_char); Re.Opt (Re.Lit "/"); Re.Eos ].

(** [^https?:\/\/(?:old|new|www)?\.reddit\.com\/([a-z0-9]+)\/?$] *)
Definition regex_short : Re.regex :=
  Re.seq ([ Re.Bos ] ++ reddit_host ++
          [ Re.Group (Re.Plus1 id_char); Re.Opt (Re.Lit "/"); Re.Eos ]).

(** [^https?:\/\/(?:old|new|www)?\.reddit\.com\/r\/[a-zA-Z0-9\-_]+\/comments\/([a-z0-9]+)\/?] *)
Definition regex_full : Re.regex :=
  Re.seq ([ Re.Bos ] ++ reddit_host ++
          [ Re.word "r/"; Re.Plus1 sub_char; Re.word "/comments/";
            Re.Group (Re.Plus1 id_char); Re.Opt (Re.Lit "/") ]).

Definition regexes : list Re.regex := [ regex_bare; regex_short; regex_full ].

(** the [for regex in regexes] loop: the first pattern that matches decides;
    falling off the end returns [None] *)
Fixpoint first_match (rs : list Re.regex) (url : string) : option string :=
  match rs with
  | [] => None
  | r :: rs' =>
      match Re.search r url with
      | Some result => result
      | None => first_match rs' url
      end
  end.

Definition extract_id (url : string) : option string := first_match regexes url.


(** ** Exceptions and results *)

Inductive exn :=
| KeyError (key : string)
| AttributeError
| NotFound                        (* prawcore.exceptions.NotFound *)
| Forbidden                       (* prawcore.exceptions.Forbidden *)
| RecursionError
| UnboundLocalError (var : string)
| PermissionError
| SystemExit (code : Z)
| OtherError (msg : string).

(** [isinstance(e, Exception)]: [SystemExit] derives from [BaseException] only *)
Definition is_Exception (e : exn) : bool :=
  match e with
  | SystemExit _ => false
  | _ => true
  end.

Definition result (A : Type) : Type := exn + A.

Definition rbind {A B} (x : result A) (f : A -> result B) : result B :=
  match x with
  | inl e => inl e
  | inr a => f a
  end.

Notation "'try!' x := c 'in' k" := (rbind c (fun x => k))
  (at level 10, x pattern, c at level 100, k at level 200).

(** ** Records fetched from the platform *)

(** [comment.edited]: [False] or the time of the edit *)
Inductive edited_t :=
| NotEdited
| EditedAt (when : Z).

Module Comment.
Inductive t := mk {
  id : string;
  parent_id : string;
  author : option string;         (* [comment.author.name], [None] when deleted *)
  body : option string;
  distinguished : option string;
  edited : edited_t;
  permalink : string;
  is_submitter : bool;
  score : Z;
  created_utc : Z;
  replies : list t
}.
End Comment.

Module Submission.
Record t := mk {
  title : string;
  author : option string;
  selftext : string;
  created_utc : Z;
  score : Z;
  upvote_percent : Z;             (* [int(submission.upvote_ratio*100)] *)
  link_flair_text : option string;
  display_name : string;          (* [submission.subreddit.display_name] *)
  stickied : bool;
  spoiler : bool;
  over_18 : bool;
  is_original_content : bool;
  locked : bool;
  num_comments : Z;
  permalink : string;
  comments : list Comment.t       (* top level, after [replace_more] *)
}.
End Submission.

(** What the program takes from its surroundings: the platform, the
    configuration file and the library calls it does not implement. *)
Record Env := {
  reddit_submission : string -> result Submission.t;
  replace_more : Submission.t -> option exn;
  markdown : string -> string;               (* markdown2.markdown *)
  strftime : string -> Z -> string;          (* fromtimestamp(t).strftime(fmt) *)
  config_root : string;                      (* config['reddit']['root'] *)
  config_dateformat : string;                (* config['defaults']['dateformat'] *)
  global_now_str : string;                   (* the module's [now_str] *)
  makedirs : option exn;                     (* os.makedirs("downloads") *)
  write_file : string -> Submission.t -> result string;
  str_exn : exn -> string                    (* str(e) *)
}.

(** ** The tree of [anytree] nodes

    A node object is known by its identity [nid]; a dictionary that holds
    node objects holds their identities. *)

Inductive Node := mkNode {
  nid : nat;
  name : string;
  children : list Node
}.

(** [PreOrderIter(node)], each node with its [depth] *)
Fixpoint preorder (d : nat) (n : Node) : list (Node * nat) :=
  match n with
  | mkNode _ _ ch => (n, d) :: flat_map (preorder (S d)) ch
  end.

(** [Node(name, parent=p)]: the new node becomes the last child of [p] *)
Fixpoint attach (p : nat) (new : Node) (n : Node) : Node :=
  match n with
  | mkNode i nm ch =>
      if Nat.eqb i p then mkNode i nm (ch ++ [new])
      else mkNode i nm (map (attach p new) ch)
  end.

(** the node object with identity [i], with its depth *)
Fixpoint find_node (i : nat) (d : nat) (n : Node) : option (Node * nat) :=
  match n with
  | mkNode j _ ch =>
      if Nat.eqb j i then Some (n, d)
      else
        (fix first (l : list Node) : option (Node * nat) :=
           match l with
           | [] => None
           | c :: l' =>
               match find_node i (S d) c with
               | Some r => Some r
               | None => first l'
               end
           end) ch
  end.

Definition tree_size (n : Node) : nat := List.length (preorder 0 n).

(** ** [download_submission] *)

(** an entry of [comments_forest] *)
Module Entry.
Record entry := mk {
  a : option string;
  b : option string;
  d : option string;
  e : edited_t;
  l : string;
  o : bool;
  s : Z;
  t : Z
}.
End Entry.

(** ['(deleted)' if x is None else x] *)
Definition deleted_or (x : option string) : option string :=
  match x with
  | None => Some "(deleted)"
  | Some v => Some v
  end.

(** line 146 *)
Definition entry_of (comment : Comment.t) : Entry.entry :=
  {| Entry.a := deleted_or (Comment.author comment);
     Entry.b := deleted_or (Comment.body comment);
     Entry.d := Comment.distinguished comment;
     Entry.e := Comment.edited comment;
     Entry.l := Comment.permalink comment;
     Entry.o := Comment.is_submitter comment;
     Entry.s := Comment.score comment;
     Entry.t := Comment.created_utc comment |}.

(** the state of the reconstruction: the node objects, the next fresh
    identity and the two dictionaries *)
Record built := {
  tree : Node;
  fresh : nat;
  comments_index : gmap string nat;
  comments_forest : gmap string Entry.entry
}.

Fixpoint comment_size (c : Comment.t) : nat :=
  match c with
  | Comment.mk _ _ _ _ _ _ _ _ _ _ rs => S (list_sum (map comment_size rs))
  end.

Definition queue_size (q : list Comment.t) : nat := list_sum (map comment_size q).

Definition t1 (comment : Comment.t) : string := "t1_" ++ Comment.id comment.
Definition t3 (submission_id : string) : string := "t3_" ++ submission_id.

(** one turn of [while comment_queue]: the node is created under the node
    the index holds for [parent_id] (a missing key raises), then both
    dictionaries are written *)
Definition process (comment : Comment.t) (st : built) : result built :=
  match comments_index st !! Comment.parent_id comment with
  | None => inl (KeyError (Comment.parent_id comment))
  | Some p =>
      inr {| tree := attach p (mkNode (fresh st) (t1 comment) []) (tree st);
             fresh := S (fresh st);
             comments_index := <[ t1 comment := fresh st ]> (comments_index st);
             comments_forest := <[ t1 comment := entry_of comment ]> (comments_forest st) |}
  end.

(** lines 143-147: [while comment_queue], with [pop(0)] and [extend] *)
Equations? fill (comment_queue : list Comment.t) (st : built) : result built
  by wf (queue_size comment_queue) lt :=
fill [] st := inr st;
fill (comment :: rest) st with process comment st := {
  | inl e := inl e;
  | inr st' := fill (rest ++ Comment.replies comment) st' }.
Proof.
  unfold queue_size. rewrite map_app, list_sum_app.
  destruct comment; simpl. lia.
Qed.

(** lines 130-135: the two dictionaries and the root node *)
Definition start (submission_id : string) : built :=
  {| tree := mkNode 0 (t3 submission_id) [];
     fresh := 1;
     comments_index := {[ t3 submission_id := 0 ]};
     comments_forest := ∅ |}.

Definition download_submission (E : Env) (submission : Submission.t)
           (submission_id : string) : result (Submission.t * built) :=
  match replace_more E submission with
  | Some e => inl e
  | None =>
      try! st := fill (Submission.comments submission) (start submission_id) in
      inr (submission, st)
  end.

(** the order in which the queue hands out the comments *)
Equations? dequeue_order (comment_queue : list Comment.t) : list Comment.t
  by wf (queue_size comment_queue) lt :=
dequeue_order [] := [];
dequeue_order (comment :: rest) :=
  comment :: dequeue_order (rest ++ Comment.replies comment).
Proof.
  unfold queue_size. rewrite map_app, list_sum_app.
  destruct comment; simpl. lia.
Qed.

(** ** [comment_parser] *)

Definition nl : string := String "010" "".
Definition dq : string := String (ascii_of_nat 34) "".

Definition comment_parser (E : Env) (initial_text : string) : string :=
  let text := Str.replace "<" "&lt;" initial_text in
  let text := Str.replace ">" "&gt;" text in
  let text := markdown E text in
  let text := Str.replace (nl ++ nl) "</p><p>" text in
  let text := Str.replace nl "<br>" text in
  if String.eqb (Str.last_n 4 text) "<br>" then Str.drop_last 4 text else text.

(** ** [generate_html] *)

Definition __NAME__ : string := "RedditPostDownloader".
Definition __VERSION__ : string := "2.1.0".

Definition str_nat (n : nat) : string := NilZero.string_of_uint (Nat.to_uint n).
Definition str_Z (z : Z) : string := NilZero.string_of_int (Z.to_int z).

(** how an f-string shows a value that may be [None] *)
Definition str_opt (x : option string) : string :=
  match x with
  | None => "None"
  | Some v => v
  end.

Definition yes_no (flag : bool) : string := if flag then "Yes" else "No".

Definition name_or_deleted (x : option string) : string :=
  match x with
  | None => "(deleted)"
  | Some v => v
  end.

(** line 158 *)
Definition html_head (submission : Submission.t) : string :=
  Str.join [ "<!doctype html><html><head><meta charset="; dq; "utf-8"; dq; "/><title>";
             Submission.display_name submission; " – "; Submission.title submission;
             "</title></head><body>" ].

(** line 161 *)
Definition html_submission (E : Env) (submission : Submission.t)
           (now_str : string) (sort : option string) : string :=
  Str.join [ "<h1><a href="; dq; config_root E; "/r/"; Submission.display_name submission;
             "/"; dq; ">/r/"; Submission.display_name submission; "</a> – <a href="; dq;
             config_root E; Submission.permalink submission; dq; ">";
             Submission.title submission; "</a></h1><h2>Snapshot taken on "; now_str;
             "<br/>Posts: "; str_Z (Submission.num_comments submission);
             " – Score: "; str_Z (Submission.score submission);
             " ("; str_Z (Submission.upvote_percent submission); "% upvoted) – Flair: ";
             str_opt (Submission.link_flair_text submission);
             " – Sorted by: "; str_opt sort;
             "<br/>Sticky: "; yes_no (Submission.stickied submission);
             " – Spoiler: "; yes_no (Submission.spoiler submission);
             " – NSFW: "; yes_no (Submission.over_18 submission);
             " – OC: "; yes_no (Submission.is_original_content submission);
             " – Locked: "; yes_no (Submission.locked submission);
             "</h2><p><em>Snapshot taken from "; __NAME__; " v"; __VERSION__;
             ". All times are UTC.</em></p>" ].

(** line 164 *)
Definition html_firstpost (E : Env) (submission : Submission.t)
           (submission_id : string) : string :=
  Str.join [ "<h3>Original post</h3><div class="; dq; "b p f l1"; dq; " id="; dq; "t3_";
             submission_id; dq; "><header><a href="; dq; config_root E; "/u/";
             name_or_deleted (Submission.author submission); dq; ">";
             name_or_deleted (Submission.author submission); "</a>, on ";
             strftime E (config_dateformat E) (Submission.created_utc submission);
             "</header>"; comment_parser E (Submission.selftext submission);
             "</div><h3>Comments</h3>" ].

(** the variables the [for] loop carries; [html_comments] is kept as the
    list of the pieces appended to it, in order *)
Record loop_vars := {
  html_comments : list string;
  previous_comment_level : nat;
  comment_counter : nat
}.

(** lines 183-185 *)
Definition closing (previous_comment_level current_comment_level : nat) : list string :=
  if (current_comment_level <=? previous_comment_level)%nat
  then repeat "</div>" (previous_comment_level - current_comment_level + 1)
  else [].

Definition is_str (x : option string) (v : string) : bool :=
  match x with
  | Some w => String.eqb w v
  | None => false
  end.

(** lines 194-203 *)
Definition style_class (d : option string) (o : bool) (current_comment_level : nat) : string :=
  if is_str d "admin" then "a "
  else if is_str d "moderator" then "m "
  else if o then "p "
  else if Nat.eqb (current_comment_level mod 2) 0 then "e "
  else "o ".

(** lines 188-206 *)
Definition classes_of (en : Entry.entry) (current_comment_level : nat) : string :=
  Str.join [ if Nat.eqb current_comment_level 1 then "f " else "";
             style_class (Entry.d en) (Entry.o en) current_comment_level;
             "l"; Str.last_n 1 (str_nat current_comment_level) ].

(** line 207 *)
Definition opening (classes current_comment_id : string) : string :=
  Str.join [ "<div class="; dq; classes; dq; " id="; dq; current_comment_id; dq; ">" ].

(** line 213, for a body that is a string *)
Definition block (E : Env) (en : Entry.entry) (body : string) : string :=
  Str.join [ "<header>"; str_opt (Entry.a en); ", on ";
             strftime E (config_dateformat E) (Entry.t en);
             " ("; str_Z (Entry.s en);
             match Entry.e en with NotEdited => "" | EditedAt _ => ", edited" end;
             ")</header>"; comment_parser E body ].

(** the body of the [for] loop, for one node handed out by the iterator *)
Definition visit (E : Env) (comments_forest : gmap string Entry.entry)
           (node : Node * nat) (v : loop_vars) : result loop_vars :=
  let current_comment_level := snd node in
  let current_comment_id := name (fst node) in
  if String.eqb (Str.take 2 current_comment_id) "t3" then inr v
  else
    match comments_forest !! current_comment_id with
    | None => inl (KeyError current_comment_id)
    | Some en =>
        match Entry.b en with
        | None => inl AttributeError
        | Some body =>
            inr {| html_comments :=
                     html_comments v
                     ++ closing (previous_comment_level v) current_comment_level
                     ++ [ opening (classes_of en current_comment_level) current_comment_id;
                          block E en body ];
                   previous_comment_level := current_comment_level;
                   comment_counter := S (comment_counter v) |}
        end
    end.

Fixpoint for_each (E : Env) (comments_forest : gmap string Entry.entry)
         (nodes : list (Node * nat)) (v : loop_vars) : result loop_vars :=
  match nodes with
  | [] => inr v
  | node :: rest =>
      try! v' := visit E comments_forest node v in
      for_each E comments_forest rest v'
  end.

Definition loop_start : loop_vars :=
  {| html_comments := []; previous_comment_level := 1; comment_counter := 1 |}.

(** lines 168-216: the nodes in pre-order from the node the index holds for
    the submission *)
Definition render_comments (E : Env) (submission_id : string) (tree : Node)
           (comments_index : gmap string nat) (comments_forest : gmap string Entry.entry)
  : result loop_vars :=
  match comments_index !! t3 submission_id with
  | None => inl (KeyError (t3 submission_id))
  | Some r =>
      match find_node r 0 tree with
      | None => inl (OtherError "no such node object")
      | Some (root, depth) => for_each E comments_forest (preorder depth root) loop_start
      end
  end.

(** lines 219-220 *)
Definition merge (html : string) : string :=
  Str.replace "</p>" "" (Str.replace "<p>" "" html).

Definition generate_html (E : Env) (submission : Submission.t) (submission_id : string)
           (now_str : string) (sort : option string) (tree : Node)
           (comments_index : gmap string nat) (comments_forest : gmap string Entry.entry)
  : result string :=
  try! v := render_comments E submission_id tree comments_index comments_forest in
  inr (merge (html_head submission ++ html_submission E submission now_str sort
              ++ html_firstpost E submission submission_id
              ++ Str.join (html_comments v))).

(** ** The command line: [myprint], [scrape_url], [main] *)

Record line := {
  text : string;
  color : nat;
  stderr : bool
}.

(** a computation that prints and may raise *)
Definition IO (A : Type) : Type := list line -> list line * result A.

Definition ret {A} (x : A) : IO A := fun out => (out, inr x).

Definition raise {A} (e : exn) : IO A := fun out => (out, inl e).

Definition bind {A B} (m : IO A) (f : A -> IO B) : IO B :=
  fun out =>
    match m out with
    | (out', inl e) => (out', inl e)
    | (out', inr x) => f x out'
    end.

Notation "'do!' x := c 'in' k" := (bind c (fun x => k))
  (at level 10, x pattern, c at level 100, k at level 200).
Notation "c ;;; k" := (bind c (fun _ => k))
  (at level 100, k at level 200, right associativity).

Definition myprint (message : string) (color : nat) (stderr : bool) : IO unit :=
  fun out =>
    ((out ++ [ {| text := message; color := color; stderr := stderr |} ])%list, inr tt).

(** [try: body except: handler(e)], for the exceptions [catches] selects *)
Definition try_except {A} (body : IO A) (catches : exn -> bool)
           (handler : exn -> IO A) : IO A :=
  fun out =>
    match body out with
    | (out', inl e) => if catches e then handler e out' else (out', inl e)
    | (out', inr x) => (out', inr x)
    end.

Definition get_submission (E : Env) (submission_id : string)
  : result (Submission.t * Z) :=
  try! submission := reddit_submission E submission_id in
  inr (submission, Submission.num_comments submission).

(** the local variables of [scrape_url] that the [try] statement binds;
    [None] is a name not bound yet.  [comments_index] and [comments_forest]
    are bound together, by the one assignment of line 290. *)
Module Frame.
Record t := mk {
  submission : option Submission.t;
  nb_replies : option Z;
  downloaded : option built
}.
End Frame.

Definition unbound : Frame.t :=
  {| Frame.submission := None; Frame.nb_replies := None; Frame.downloaded := None |}.

(** reading a local variable *)
Definition read {A} (var : string) (x : option A) : result A :=
  match x with
  | None => inl (UnboundLocalError var)
  | Some v => inr v
  end.

Definition msg_incorrect (url : string) : string :=
  Str.join [ "[x] The URL or ID "; dq; url; dq; " looks incorrect. Please check it." ].

Definition msg_found (submission_id : string) (submission : Submission.t) (nb_replies : Z) : string :=
  Str.join [ "[+] Submission "; submission_id; " found ("; dq; Submission.title submission;
             dq; " on r/"; Submission.display_name submission; ", "; str_Z nb_replies;
             " replies), beginning download" ].

Definition msg_not_found (submission_id : string) : string :=
  Str.join [ "[x] The submission "; submission_id; " was not found." ].

Definition msg_forbidden (submission_id : string) : string :=
  Str.join [ "[x] Not allowed to access the submission "; submission_id;
             ". That usually means the submission is on a private subreddit you do not have access to." ].

Definition msg_too_deep : string :=
  "[x] The HTML structure could not be generated because the structure of the replies is going too deep for the program to handle.".

Definition msg_recursion_hint : string :=
  "[x] If you really want to save that thread, pass the --disable-recursion-limit option. Please note however that this might lead to crashing the program.".

(** lines 285-290, the body of the [try]: the output, the variables bound on
    the way and the exception that ended it, if one did *)
Definition try_body (E : Env) (submission_id : string) (out : list line)
  : list line * Frame.t * option exn :=
  match get_submission E submission_id with
  | inl e => (out, unbound, Some e)
  | inr (submission, nb_replies) =>
      let out1 :=
        (out ++ [ {| text := msg_found submission_id submission nb_replies;
                     color := 8; stderr := false |} ])%list in
      match download_submission E submission submission_id with
      | inl e =>
          (out1,
           {| Frame.submission := Some submission; Frame.nb_replies := Some nb_replies;
              Frame.downloaded := None |},
           Some e)
      | inr (submission', b) =>
          (out1,
           {| Frame.submission := Some submission'; Frame.nb_replies := Some nb_replies;
              Frame.downloaded := Some b |},
           None)
      end
  end.

(** lines 284-296: the [try] with its two handlers and its [else]; neither
    handler leaves the function *)
Definition fetch (E : Env) (submission_id : string) : IO Frame.t :=
  fun out =>
    match try_body E submission_id out with
    | (out1, frame, Some NotFound) =>
        (myprint (msg_not_found submission_id) 9 true ;;; ret frame) out1
    | (out1, frame, Some Forbidden) =>
        (myprint (msg_forbidden submission_id) 9 true ;;; ret frame) out1
    | (out1, _, Some e) => (out1, inl e)
    | (out1, frame, None) =>
        (myprint "[+] Submission downloaded." 8 false ;;; ret frame) out1
    end.

Definition lift {A} (r : result A) : IO A := fun out => (out, r).

Definition is_RecursionError (e : exn) : bool :=
  match e with
  | RecursionError => true
  | _ => false
  end.

(** lines 299-307: the arguments of the call are read inside the [try],
    from the left *)
Definition generate (E : Env) (submission_id : string) (frame : Frame.t) : IO string :=
  try_except
    (lift (try! submission := read "submission" (Frame.submission frame) in
           try! b := read "comments_index" (Frame.downloaded frame) in
           generate_html E submission submission_id (global_now_str E) None
                         (tree b) (comments_index b) (comments_forest b)))
    is_RecursionError
    (fun _ =>
       myprint msg_too_deep 9 true ;;;
       myprint msg_recursion_hint 9 true ;;;
       raise (SystemExit 1)).

Definition scrape_url (E : Env) (url : string) : IO (string * Submission.t) :=
  match extract_id url with
  | None =>
      myprint (msg_incorrect url) 9 true ;;;
      raise (SystemExit 1)
  | Some submission_id =>
      do! frame := fetch E submission_id in
      do! html := generate E submission_id frame in
      do! submission := lift (read "submission" (Frame.submission frame)) in
      ret (html, submission)
  end.

Definition is_PermissionError (e : exn) : bool :=
  match e with
  | PermissionError => true
  | _ => false
  end.

Definition msg_uncaught_write (E : Env) (e : exn) : string :=
  "[x] Uncaught problem when writing the file: " ++ str_exn E e.

Definition msg_uncaught (E : Env) (e : exn) : string :=
  "[x] Uncaught problem: " ++ str_exn E e.

(** lines 322-329 *)
Definition save (E : Env) (html : string) (submission : Submission.t) : IO string :=
  try_except (lift (write_file E html submission)) is_Exception
    (fun e =>
       if is_PermissionError e then
         myprint "[x] Could not write file because of bad permissions." 9 true ;;;
         raise (SystemExit 1)
       else
         myprint (msg_uncaught_write E e) 9 true ;;;
         raise (SystemExit 1)).

(** [main], for the line that [input] returns *)
Definition main (E : Env) (url : string) : IO unit :=
  try_except
    (do! r := scrape_url E url in
     myprint "[+] Submission structured." 8 false ;;;
     lift (match makedirs E with Some e => inl e | None => inr tt end) ;;;
     do! filename := save E (fst r) (snd r) in
     myprint ("[=] Submission saved! Filename: " ++ filename) 10 false)
    is_Exception
    (fun e =>
       myprint (msg_uncaught E e) 9 true ;;;
       raise e).

(** ** The listings of a user: [get_saved_submissions],
    [get_upvoted_submissions], [get_posted_submissions] *)

(** an item of a listing: a submission ([name] begins with [t3]) or a
    comment ([name] begins with [t1]); [link_id] and [submission_id] are
    read on comments only *)
Module Item.
Record t := mk {
  name : string;                  (* the full name, [t3_...] or [t1_...] *)
  id : string;
  link_id : string;               (* [t3_] and the identifier of the thread *)
  submission_id : string;         (* [item.submission.id] *)
  created_utc : Z
}.
End Item.

(** [reddit.user.me()] or [reddit.redditor(author)]: each listing returns
    the items it has for the limit asked *)
Module User.
Record t := mk {
  saved : nat -> list Item.t;
  upvoted : nat -> list Item.t;
  submissions_new : nat -> list Item.t;
  comments_new : nat -> list Item.t
}.
End User.

Record Reddit := {
  me : User.t;
  redditor : string -> User.t
}.

(** lines 43-50 *)
Fixpoint saved_ids (extended : bool) (items : list Item.t) : list string :=
  match items with
  | [] => []
  | item :: rest =>
      if String.eqb (Str.take 2 (Item.name item)) "t3"
      then Item.id item :: saved_ids extended rest
      else if String.eqb (Str.take 2 (Item.name item)) "t1" && extended
      then Str.drop 3 (Item.link_id item) :: saved_ids extended rest
      else saved_ids extended rest
  end.

Definition get_saved_submissions (reddit : Reddit) (extended : bool) (limit : nat)
  : list string :=
  saved_ids extended (User.saved (me reddit) limit).

(** lines 57-63 *)
Fixpoint upvoted_ids (items : list Item.t) : list string :=
  match items with
  | [] => []
  | item :: rest =>
      if String.eqb (Str.take 2 (Item.name item)) "t3"
      then Item.id item :: upvoted_ids rest
      else upvoted_ids rest
  end.

Definition get_upvoted_submissions (reddit : Reddit) (limit : nat) : list string :=
  upvoted_ids (User.upvoted (me reddit) limit).

(** [l.sort(key=lambda x: x[1], reverse=True)]: the sort is stable, so
    entries with the same time keep their order; an entry goes in front of
    the first one that is not newer than it *)
Fixpoint insert_newest (x : string * Z) (l : list (string * Z)) : list (string * Z) :=
  match l with
  | [] => [x]
  | y :: r => if (snd x <? snd y)%Z then y :: insert_newest x r else x :: l
  end.

Definition sort_newest (l : list (string * Z)) : list (string * Z) :=
  fold_right insert_newest [] l.

(** lines 78-81: the two loops that fill [submission_ids] *)
Definition posted_entries (user : User.t) (limit : nat) : list (string * Z) :=
  (map (fun item => (Item.id item, Item.created_utc item))
       (User.submissions_new user (limit * 2))
   ++ map (fun item => (Item.submission_id item, Item.created_utc item))
          (User.comments_new user (limit * 2)))%list.

(** lines 66-90 *)
Definition get_posted_submissions (reddit : Reddit) (author : option string)
           (extended : bool) (limit : nat) : list string :=
  let user := match author with
              | None => me reddit
              | Some a => redditor reddit a
              end in
  if extended then
    map fst (firstn 10 (sort_newest (posted_entries user limit)))
  else
    map Item.id (User.submissions_new user limit).

(** ** [write_file] *)

(** [s.split(sep)] for a separator of one character *)
Fixpoint split (sep : ascii) (s : string) : list string :=
  match s with
  | "" => [ "" ]
  | String c r =>
      if Ascii.eqb c sep then "" :: split sep r
      else
        match split sep r with
        | [] => [ String c "" ]
        | piece :: pieces => String c piece :: pieces
        end
  end.

(** [l[-k]] for [0 < k] *)
Definition from_end {A} (k : nat) (l : list A) : option A :=
  if (List.length l <? k)%nat then None
  else nth_error l (List.length l - k).

(** lines 230-233: [IndexError] is [OtherError] here *)
Definition sanitized_name (submission : Submission.t) : result string :=
  match from_end 2 (split "/" (Submission.permalink submission)) with
  | None => inl (OtherError "IndexError")
  | Some sanitized =>
      inr (if (150 <? String.length sanitized)%nat then Str.take 150 sanitized
           else sanitized)
  end.



(** * Vocabulary of the properties *)

(** ** References to a thread *)

Definition stops (p : ascii -> bool) (rest : string) : Prop :=
  match rest with
  | "" => True
  | String c _ => p c = false
  end.

Definition is_id (s : string) : Prop := s <> "" /\ Str.all id_char s = true.
Definition is_community (s : string) : Prop := s <> "" /\ Str.all sub_char s = true.
Definition opt_slash (s : string) : Prop := s = "" \/ s = "/".
Definition is_scheme (s : string) : Prop := s = "http" \/ s = "https".
Definition is_host (s : string) : Prop := s = "" \/ s = "old" \/ s = "new" \/ s = "www".

(** [shape url id]: [url] is a reference of one of the three supported
    forms, and [id] is the identifier written in it *)
Inductive shape : string -> string -> Prop :=
| shape_bare id sl :
    is_id id -> opt_slash sl -> shape (id ++ sl) id
| shape_short sch h id sl :
    is_scheme sch -> is_host h -> is_id id -> opt_slash sl ->
    shape (sch ++ "://" ++ h ++ ".reddit.com/" ++ id ++ sl) id
| shape_full sch h community id rest :
    is_scheme sch -> is_host h -> is_community community -> is_id id ->
    stops id_char rest ->
    shape (sch ++ "://" ++ h ++ ".reddit.com/r/" ++ community ++ "/comments/"
               ++ id ++ rest) id.

(** a pattern without a capture group *)
Fixpoint no_group (r : Re.regex) : Prop :=
  match r with
  | Re.Group _ => False
  | Re.Cat r1 r2 | Re.Alt r1 r2 => no_group r1 /\ no_group r2
  | Re.Opt r1 => no_group r1
  | _ => True
  end.

(** ** The table of a tree *)

Module NodeRow.
Record t := mk {
  id : nat;
  name : string;
  parent : option nat;
  depth : nat
}.
End NodeRow.

(** the nodes in pre-order: identity, [name], the identity of [parent]
    and [depth] *)
Fixpoint rows (parent : option nat) (d : nat) (n : Node) : list NodeRow.t :=
  match n with
  | mkNode i nm ch => NodeRow.mk i nm parent d :: flat_map (rows (Some i) (S d)) ch
  end.

Definition table (st : built) : list NodeRow.t := rows None 0 (tree st).

Fixpoint ids (n : Node) : list nat :=
  match n with
  | mkNode i _ ch => i :: flat_map ids ch
  end.

(** ** The queue seen as a list *)

Fixpoint process_all (cs : list Comment.t) (st : built) : result built :=
  match cs with
  | [] => inr st
  | c :: r =>
      try! st' := process c st in
      process_all r st'
  end.

(** the first comment, in the order of the queue, whose [parent_id] names
    neither the submission nor a comment handed out before it *)
Fixpoint first_orphan (known : list string) (order : list Comment.t) : option Comment.t :=
  match order with
  | [] => None
  | c :: r =>
      if existsb (String.eqb (Comment.parent_id c)) known
      then first_orphan (t1 c :: known) r
      else Some c
  end.

Definition knows (sid : string) (done : list Comment.t) (known : list string) : Prop :=
  forall k, In k known <-> k = t3 sid \/ In k (map t1 done).

(** what holds of the state of [fill] once the comments [done] are
    processed *)
Record inv (sid : string) (done : list Comment.t) (st : built) : Prop := {
  inv_fresh : fresh st = S (List.length done);
  inv_ids : Permutation (ids (tree st)) (seq 0 (fresh st));
  inv_root : nid (tree st) = 0 /\ name (tree st) = t3 sid;
  inv_index_root : comments_index st !! t3 sid = Some 0;
  inv_index : forall k i, comments_index st !! k = Some i ->
      exists r, In r (table st) /\ NodeRow.id r = i /\ NodeRow.name r = k;
  inv_keys : forall k,
      is_Some (comments_index st !! k) <-> k = t3 sid \/ In k (map t1 done);
  inv_nodes : forall i c, nth_error done i = Some c ->
      exists r rp, In r (table st) /\ In rp (table st) /\
        NodeRow.id r = S i /\ NodeRow.name r = t1 c /\ NodeRow.parent r = Some (NodeRow.id rp) /\
        NodeRow.name rp = Comment.parent_id c /\ NodeRow.id rp <= i /\
        NodeRow.depth r = S (NodeRow.depth rp);
  inv_names : forall r, In r (table st) -> NodeRow.id r <> 0 ->
      exists c, In c done /\ NodeRow.name r = t1 c;
  inv_forest : forall k en, comments_forest st !! k = Some en ->
      exists c, In c done /\ k = t1 c /\ en = entry_of c;
  inv_forest_dom : forall c, In c done -> is_Some (comments_forest st !! t1 c);
  inv_kids : forall n d, In (n, d) (preorder 0 (tree st)) ->
      StronglySorted lt (map nid (children n)) /\
      Forall (fun j => j < fresh st) (map nid (children n))
}.

(** ** The renderer in the words of its description *)

Module Spec.

(** the closing markers due before a node *)
Definition markers (previous_depth current_depth : nat) : nat :=
  if (current_depth <=? previous_depth)%nat
  then previous_depth - current_depth + 1
  else 0.

(** for each node in turn: the closing markers, then what the node itself
    contributes; the node's depth becomes the previous depth *)
Fixpoint emit (content : Node * nat -> list string) (previous_depth : nat)
         (nodes : list (Node * nat)) : list string :=
  match nodes with
  | [] => []
  | node :: rest =>
      (repeat "</div>" (markers previous_depth (snd node)) ++ content node
       ++ emit content (snd node) rest)%list
  end.


(** the closing markers of a whole traversal, from the depths alone *)
Fixpoint total_markers (previous_depth : nat) (depths : list nat) : nat :=
  match depths with
  | [] => 0
  | d :: rest => markers previous_depth d + total_markers d rest
  end.

End Spec.

(** the opening of the boundary of a node and its block, lines 207 and 213 *)
Definition pieces (E : Env) (comments_forest : gmap string Entry.entry)
           (node : Node * nat) : list string :=
  match comments_forest !! name (fst node) with
  | Some en =>
      match Entry.b en with
      | Some body =>
          [ opening (classes_of en (snd node)) (name (fst node)); block E en body ]
      | None => []
      end
  | None => []
  end.

(** the closing markers among the pieces of [html_comments] *)
Definition count_closing (chunks : list string) : nat :=
  List.length (filter (String.eqb "</div>") chunks).

(** the nodes of a tree below its root, in pre-order *)
Definition real_nodes (root : Node) : list (Node * nat) := tl (preorder 0 root).

(** ** Sample data *)

Definition sample_env : Env :=
  {| reddit_submission := fun _ => inl NotFound;
     replace_more := fun _ => None;
     markdown := fun s => "<p>" ++ s ++ "</p>" ++ nl;
     strftime := fun _ _ => "2024-01-01";
     config_root := "https://www.reddit.com";
     config_dateformat := "%Y-%m-%d";
     global_now_str := "2024-01-02";
     makedirs := None;
     write_file := fun _ _ => inr "test-hello.html";
     str_exn := fun _ => "error" |}.

Definition sample_comment (id parent_id : string) (author : option string)
           (replies : list Comment.t) : Comment.t :=
  Comment.mk id parent_id author (Some "hi") None NotEdited "/l" false 3 0 replies.

Definition sample_submission (title : string) (comments : list Comment.t) : Submission.t :=
  Submission.mk title (Some "op") "text" 0 1 99 None "test" false false false false
                false 2 "/r/test/comments/s/hello/" comments.

(** three top-level comments without replies *)
Definition flat_thread : Submission.t :=
  sample_submission "Hello"
    [ sample_comment "a" "t3_s" (Some "ann") [];
      sample_comment "b" "t3_s" (Some "bob") [];
      sample_comment "c" "t3_s" None [] ].

(** root -> A -> (B, C); root -> D *)
Definition nested_thread : Submission.t :=
  sample_submission "Hello"
    [ sample_comment "a" "t3_s" (Some "ann")
        [ sample_comment "b" "t1_a" (Some "bob") [];
          sample_comment "c" "t1_a" None [] ];
      sample_comment "d" "t3_s" (Some "dan") [] ].

(** the first comment names the second as its parent *)
Definition late_parent_thread : Submission.t :=
  sample_submission "Hello"
    [ sample_comment "a" "t1_b" (Some "ann") [];
      sample_comment "b" "t3_s" (Some "bob") [] ].

(** every comment names, as its parent, the submission or a comment that
    the queue hands out before it *)
Definition parents_first (sid : string) (order : list Comment.t) : Prop :=
  forall pre c post,
    order = (pre ++ c :: post)%list ->
    In (Comment.parent_id c) (t3 sid :: map t1 pre).

(** every comment names, as its parent, the submission or some comment of
    the collection *)
Definition parents_exist (sid : string) (order : list Comment.t) : Prop :=
  forall c, In c order ->
    Comment.parent_id c = t3 sid \/
    exists c', In c' order /\ Comment.parent_id c = t1 c'.

(** what [download_submission] builds, when it returns *)
Definition built_of (E : Env) (submission : Submission.t) (submission_id : string) : built :=
  match download_submission E submission submission_id with
  | inr (_, b) => b
  | inl _ => start submission_id
  end.

(** a top-level comment without replies *)
Definition flat (sid : string) (c : Comment.t) : Prop :=
  Comment.replies c = [] /\ Comment.parent_id c = t3 sid.

(** a node the loop can render: not taken for the submission, and with an
    entry whose body is a string *)
Definition covered (comments_forest : gmap string Entry.entry) (node : Node * nat) : Prop :=
  String.eqb (Str.take 2 (name (fst node))) "t3" = false /\
  exists en body, comments_forest !! name (fst node) = Some en /\ Entry.b en = Some body.


(** the message of the category that goes with a refusal of the platform *)
Definition refusal_line (e : exn) (submission_id : string) : line :=
  {| text := match e with
             | Forbidden => msg_forbidden submission_id
             | _ => msg_not_found submission_id
             end;
     color := 9; stderr := true |}.

Definition uncaught_line (E : Env) (e : exn) : line :=
  {| text := msg_uncaught E e; color := 9; stderr := true |}.


(** ** Paragraph markers *)

(** the texts whose presence lets the removal of a marker join two
    fragments into a new one: the start of a marker run into another [<] *)
Definition joints : list string := [ "<<"; "<p<"; "</<"; "</p<" ].

Definition free_of (words : list string) (s : string) : bool :=
  forallb (fun w => negb (Str.occurs w s)) words.

Definition tidy (s : string) : bool := free_of joints s.

(** some proper prefix of [w], followed by [<], starts [r] *)
Fixpoint runs_into (w r : string) : bool :=
  match w with
  | "" => false
  | String x w' =>
      Str.starts "<" r ||
      match r with
      | String y r0 => Ascii.eqb x y && runs_into w' r0
      | "" => false
      end
  end.

(** the words [<u<] for the proper prefixes [u] of [w] *)
Fixpoint joints_of (w : string) : list string :=
  match w with
  | "" => []
  | String x w' => "<<" :: map (fun b => String "<" (String x (Str.drop 1 b))) (joints_of w')
  end.

(** no [<] before the last character *)
Fixpoint inner_plain (w : string) : bool :=
  match w with
  | "" => true
  | String _ "" => true
  | String x w' => negb (Ascii.eqb x "<") && inner_plain w'
  end.

(** the document before the paragraph markers are removed, line 219 *)
Definition html_total (E : Env) (submission : Submission.t) (submission_id now_str : string)
           (sort : option string) (v : loop_vars) : string :=
  html_head submission ++ html_submission E submission now_str sort
  ++ html_firstpost E submission submission_id ++ Str.join (html_comments v).

(** a title from which the removal of [<p>] makes a [<p>] *)
Definition nested_marker_thread : Submission.t := sample_submission "<<p>p>" [].

(** ** Further vocabulary *)

(** the item is a submission, as the listings test it *)
Definition is_t3 (item : Item.t) : bool :=
  String.eqb (Str.take 2 (Item.name item)) "t3".

(** the character occurs in the text *)
Fixpoint has_char (c : ascii) (s : string) : bool :=
  match s with
  | "" => false
  | String x r => Ascii.eqb x c || has_char c r
  end.

(** a comment and everything nested under it, the comment first *)
Fixpoint flatten_comment (c : Comment.t) : list Comment.t :=
  match c with
  | Comment.mk _ _ _ _ _ _ _ _ _ _ rs => c :: flat_map flatten_comment rs
  end.

Definition flatten (q : list Comment.t) : list Comment.t := flat_map flatten_comment q.

Definition sample_item (name id link : string) (t : Z) : Item.t :=
  Item.mk name id link (Str.drop 3 link) t.

Definition sample_user : User.t :=
  {| User.saved := fun _ =>
       [ sample_item "t3_aa" "aa" "" 5; sample_item "t1_c1" "c1" "t3_bb" 7;
         sample_item "t3_cc" "cc" "" 9 ];
     User.upvoted := fun _ => [ sample_item "t3_aa" "aa" "" 5; sample_item "t1_c1" "c1" "t3_bb" 7 ];
     User.submissions_new := fun limit =>
       firstn limit [ sample_item "t3_cc" "cc" "" 9; sample_item "t3_aa" "aa" "" 5 ];
     User.comments_new := fun limit =>
       firstn limit [ sample_item "t1_c1" "c1" "t3_bb" 7; sample_item "t1_c0" "c0" "t3_aa" 5 ] |}.

(** a user whose submissions are all newer than the comments *)
Definition early_commenter : User.t :=
  {| User.saved := fun _ => [];
     User.upvoted := fun _ => [];
     User.submissions_new := fun limit =>
       firstn limit [ sample_item "t3_cc" "cc" "" 9; sample_item "t3_aa" "aa" "" 5 ];
     User.comments_new := fun limit =>
       firstn limit [ sample_item "t1_c0" "c0" "t3_aa" 5; sample_item "t1_c1" "c1" "t3_bb" 3 ] |}.

Definition sample_reddit : Reddit :=
  {| me := sample_user; redditor := fun _ => early_commenter |}.


(** newest first *)
Definition not_older (x y : string * Z) : Prop := (snd y <= snd x)%Z.

(** a conversion that breaks on any text holding an angle bracket *)
Definition picky_env : Env :=
  {| reddit_submission := reddit_submission sample_env;
     replace_more := replace_more sample_env;
     markdown := fun s =>
       if has_char "<" s || has_char ">" s then "broken" else markdown sample_env s;
     strftime := strftime sample_env;
     config_root := config_root sample_env;
     config_dateformat := config_dateformat sample_env;
     global_now_str := global_now_str sample_env;
     makedirs := makedirs sample_env;
     write_file := write_file sample_env;
     str_exn := str_exn sample_env |}.

(** an environment in which the thread [s] exists *)
Definition archive_env : Env :=
  {| reddit_submission := fun submission_id =>
       if String.eqb submission_id "s" then inr nested_thread else inl NotFound;
     replace_more := replace_more sample_env;
     markdown := markdown sample_env;
     strftime := strftime sample_env;
     config_root := config_root sample_env;
     config_dateformat := config_dateformat sample_env;
     global_now_str := global_now_str sample_env;
     makedirs := makedirs sample_env;
     write_file := write_file sample_env;
     str_exn := str_exn sample_env |}.

(** the lines [myprint] writes *)
Definition info (message : string) : line :=
  {| text := message; color := 8; stderr := false |}.

Definition failure (message : string) : line :=
  {| text := message; color := 9; stderr := true |}.

Definition saved_line (filename : string) : line :=
  {| text := "[=] Submission saved! Filename: " ++ filename; color := 10; stderr := false |}.

(** the two lines of a download that went through *)
Definition download_lines (submission_id : string) (submission : Submission.t) : list line :=
  [ info (msg_found submission_id submission (Submission.num_comments submission));
    info "[+] Submission downloaded." ].

(** the computation only ever adds to the output *)
Definition appends {A} (m : IO A) : Prop :=
  forall out, exists added, fst (m out) = (out ++ added)%list.


(** ** The thread as it is nested *)

(** a tree of names, without the identities of the node objects *)
Inductive Nest := T {
  label : string;
  kids : list Nest
}.

Fixpoint nest (n : Node) : Nest :=
  match n with
  | mkNode _ nm ch => T nm (map nest ch)
  end.

(** a comment with its replies under it, as the platform nests them *)
Fixpoint skeleton (c : Comment.t) : Nest :=
  match c with
  | Comment.mk id _ _ _ _ _ _ _ _ _ rs => T ("t1_" ++ id) (map skeleton rs)
  end.

Fixpoint labels (s : Nest) : list string :=
  match s with
  | T l ks => l :: flat_map labels ks
  end.

(** [new] becomes the last child of the nodes named [p] *)
Fixpoint graft (p : string) (new : Nest) (s : Nest) : Nest :=
  match s with
  | T l ks => T l (map (graft p new) ks ++ (if String.eqb l p then [new] else []))
  end.

(** every reply names the comment it is nested under as its parent *)
Fixpoint well_nested (parent : string) (c : Comment.t) : bool :=
  match c with
  | Comment.mk id parent_id _ _ _ _ _ _ _ _ rs =>
      String.eqb parent_id parent && forallb (well_nested ("t1_" ++ id)) rs
  end.

(** the comments depth first, each with its depth *)
Fixpoint outline (d : nat) (c : Comment.t) : list (string * nat) :=
  match c with
  | Comment.mk id _ _ _ _ _ _ _ _ _ rs => ("t1_" ++ id, d) :: flat_map (outline (S d)) rs
  end.

Definition grow_leaf (s : Nest) (c : Comment.t) : Nest :=
  graft (Comment.parent_id c) (T (t1 c) []) s.

Definition grow_sub (s : Nest) (c : Comment.t) : Nest :=
  graft (Comment.parent_id c) (skeleton c) s.

(** the names of the comments of a queue, replies included *)
Definition queue_labels (q : list Comment.t) : list string :=
  flat_map (fun c => labels (skeleton c)) q.

(** the identity and the name of every node *)
Fixpoint tags (n : Node) : list (nat * string) :=
  match n with
  | mkNode i nm ch => (i, nm) :: flat_map tags ch
  end.

(** the names depth first, each with its depth *)
Fixpoint walk (d : nat) (s : Nest) : list (string * nat) :=
  match s with
  | T l ks => (l, d) :: flat_map (walk (S d)) ks
  end.

(** the text ends with a line feed *)
Fixpoint ends_with_newline (s : string) : bool :=
  match s with
  | "" => false
  | String c "" => Ascii.eqb c "010"
  | String _ r => ends_with_newline r
  end.

(** lines 104-105: the line feeds of the converted text *)
Definition breaks (text : string) : string :=
  Str.replace nl "<br>" (Str.replace (nl ++ nl) "</p><p>" text).

(** * Properties *)

(** ** Identifier extraction *)

Example extract_bare : extract_id "1abc9z" = Some "1abc9z".
Proof. reflexivity. Qed.

Example extract_short : extract_id "https://old.reddit.com/xk3f9/" = Some "xk3f9".
Proof. reflexivity. Qed.

Example extract_full :
  extract_id "http://www.reddit.com/r/Ask_Me-9/comments/abc123/some_title/"
  = Some "abc123".
Proof. reflexivity. Qed.

Example extract_upper : extract_id "ABC" = None.
Proof. reflexivity. Qed.

Example extract_elsewhere : extract_id "https://example.com/abc" = None.
Proof. reflexivity. Qed.

Lemma append_empty_l (s : string) : "" ++ s = s.
Proof. reflexivity. Qed.

Lemma add_sub_l (a n : nat) : (a + n - a = n)%nat.
Proof. lia. Qed.

Lemma take_app_length w s : Str.take (String.length w) (w ++ s) = w.
Proof. induction w; simpl; [destruct s; reflexivity | congruence]. Qed.

Section Greedy.
Context {A : Type}.
Implicit Types k : nat -> string -> option A.

Lemma star_stops p rest off k : stops p rest -> Re.star p off rest k = k off rest.
Proof. destruct rest; simpl; [reflexivity | intros ->; reflexivity]. Qed.

(** the longest run is tried first: when the rest of the pattern accepts
    what follows it, that is the match *)
Lemma star_greedy p w rest k x :
  forall off,
  Str.all p w = true -> stops p rest ->
  k (off + String.length w)%nat rest = Some x ->
  Re.star p off (w ++ rest) k = Some x.
Proof.
  induction w as [|c w IH]; intros off Hall Hstop Hk; simpl in *.
  - rewrite star_stops by assumption. rewrite Nat.add_0_r in Hk. exact Hk.
  - apply andb_prop in Hall as [Hc Hw]. rewrite Hc.
    rewrite (IH (S off)); [reflexivity | assumption | assumption |].
    rewrite <- Hk. f_equal. lia.
Qed.

Lemma plus_greedy p w rest k x off :
  w <> "" -> Str.all p w = true -> stops p rest ->
  k (off + String.length w)%nat rest = Some x ->
  Re.plus p off (w ++ rest) k = Some x.
Proof.
  intros Hne Hall Hstop Hk. destruct w as [|c w]; [congruence|].
  simpl in *. apply andb_prop in Hall as [Hc Hw]. rewrite Hc.
  apply star_greedy; try assumption. rewrite <- Hk. f_equal. lia.
Qed.

(** whatever a repetition matched is a run of the class *)
Lemma star_inv p s : forall off k x,
  Re.star p off s k = Some x ->
  exists w rest, s = w ++ rest /\ Str.all p w = true
                 /\ k (off + String.length w)%nat rest = Some x.
Proof.
  induction s as [|c s IH]; intros off k x H; simpl in H.
  - exists "", "". rewrite Nat.add_0_r. repeat split. exact H.
  - destruct (p c) eqn:Hc.
    + destruct (Re.star p (S off) s k) eqn:Hs.
      * injection H as <-. destruct (IH _ _ _ Hs) as (w & rest & -> & Hw & Hk).
        exists (String c w), rest. simpl. rewrite Hc, Hw.
        repeat split. rewrite <- Hk. f_equal. lia.
      * exists "", (String c s). rewrite Nat.add_0_r. repeat split. exact H.
    + exists "", (String c s). rewrite Nat.add_0_r. repeat split. exact H.
Qed.

Lemma plus_inv p s off k x :
  Re.plus p off s k = Some x ->
  exists w rest, s = w ++ rest /\ w <> "" /\ Str.all p w = true
                 /\ k (off + String.length w)%nat rest = Some x.
Proof.
  destruct s as [|c s]; simpl; [discriminate|].
  destruct (p c) eqn:Hc; [|discriminate]. intros H.
  destruct (star_inv _ _ _ _ _ H) as (w & rest & -> & Hw & Hk).
  exists (String c w), rest. simpl. rewrite Hc, Hw.
  repeat split; [discriminate|]. rewrite <- Hk. f_equal. lia.
Qed.

(** a pattern without a group hands the capture on unchanged *)
Lemma no_group_cap r : no_group r ->
  forall off s cap (k : @Re.cont A) x,
  Re.rmatch r off s cap k = Some x -> exists off' s', k off' s' cap = Some x.
Proof.
  induction r as [| | |c|p|r1 IH1 r2 IH2|r1 IH1 r2 IH2|r1 IH1|r1 IH1];
    simpl; intros Hg off s cap k x H.
  - eauto.
  - destruct (Nat.eqb off 0); [eauto | discriminate].
  - destruct (Re.at_eos s); [eauto | discriminate].
  - destruct s as [|c' s']; [discriminate|].
    destruct (Ascii.eqb c c'); [eauto | discriminate].
  - apply plus_inv in H as (w & rest & _ & _ & _ & Hk). eauto.
  - destruct Hg as [Hg1 Hg2].
    apply (IH1 Hg1) in H as (off1 & s1 & H). apply (IH2 Hg2) in H. exact H.
  - destruct Hg as [Hg1 Hg2]. destruct (Re.rmatch r1 off s cap k) eqn:H1.
    + injection H as <-. apply (IH1 Hg1) in H1. exact H1.
    + apply (IH2 Hg2) in H. exact H.
  - destruct (Re.rmatch r1 off s cap k) eqn:H1.
    + injection H as <-. apply (IH1 Hg) in H1. exact H1.
    + eauto.
  - contradiction.
Qed.

End Greedy.

Lemma no_group_seq l : Forall no_group l -> no_group (Re.seq l).
Proof. induction 1; simpl; auto. Qed.

Lemma no_group_word w : no_group (Re.word w).
Proof. induction w; simpl; auto. Qed.

(** a match of a pattern whose one group is [([class]+)] captures a
    non-empty run of the class *)
Lemma seq_group_capture p pre post :
  Forall no_group pre -> Forall no_group post ->
  forall off s cap m,
  Re.rmatch (Re.seq (pre ++ Re.Group (Re.Plus1 p) :: post)) off s cap
            (fun _ _ c => Some c) = Some m ->
  exists id, m = Some id /\ id <> "" /\ Str.all p id = true.
Proof.
  intros Hpre Hpost. induction Hpre as [|r pre Hr _ IH]; intros off s cap m H.
  - simpl in H. apply plus_inv in H as (w & rest & -> & Hne & Hall & H).
    apply (no_group_cap _ (no_group_seq _ Hpost)) in H as (off' & s' & H).
    injection H as <-. rewrite add_sub_l, take_app_length. eauto.
  - simpl in H. apply (no_group_cap _ Hr) in H as (off' & s' & H).
    apply IH in H. exact H.
Qed.

Lemma search_from_bos r off s : Re.search_from (Re.Cat Re.Bos r) (S off) s = None.
Proof. revert off. induction s; intros off; simpl; [reflexivity | apply IHs]. Qed.

(** a pattern that begins with [^] can only match at the start *)
Lemma search_bos r s : Re.search (Re.Cat Re.Bos r) s = Re.match_at (Re.Cat Re.Bos r) 0 s.
Proof.
  unfold Re.search. destruct s; simpl.
  - destruct (Re.match_at _ _ _); reflexivity.
  - destruct (Re.match_at _ _ _); [reflexivity | apply search_from_bos].
Qed.

Lemma no_group_host : Forall no_group reddit_host.
Proof.
  unfold reddit_host. repeat constructor; simpl; auto using no_group_word.
Qed.

Lemma search_captures_id r url m :
  In r regexes -> Re.search r url = Some m -> exists id, m = Some id /\ is_id id.
Proof.
  intros Hr H.
  assert (Htail : Forall no_group [Re.Opt (Re.Lit "/"); Re.Eos])
    by (repeat constructor).
  destruct Hr as [<- | [<- | [<- | []]]].
  - unfold regex_bare in H. simpl Re.seq in H. rewrite search_bos in H.
    apply (seq_group_capture id_char [Re.Bos] _ ltac:(repeat constructor) Htail) in H.
    exact H.
  - unfold regex_short in H. simpl Re.seq in H. rewrite search_bos in H.
    apply (seq_group_capture id_char (Re.Bos :: reddit_host) _
             ltac:(constructor; [exact I | apply no_group_host]) Htail) in H.
    exact H.
  - unfold regex_full in H. simpl Re.seq in H. rewrite search_bos in H.
    apply (seq_group_capture id_char
             (Re.Bos :: reddit_host ++ [Re.word "r/"; Re.Plus1 sub_char; Re.word "/comments/"])%list
             [Re.Opt (Re.Lit "/")]) in H; [exact H | | repeat constructor].
    constructor; [exact I|]. apply Forall_app. split; [apply no_group_host|].
    repeat constructor; apply no_group_word.
Qed.

Ltac greedy Hsl :=
  erewrite plus_greedy;
  [ reflexivity | assumption | eassumption
  | try (destruct Hsl as [-> | ->]; simpl; reflexivity)
  | simpl;
    rewrite ?Nat.sub_0_r, ?add_sub_l, ?take_app_length;
    try (destruct Hsl as [-> | ->]; reflexivity) ].

Lemma bare_matches id sl :
  is_id id -> opt_slash sl -> Re.search regex_bare (id ++ sl) = Some (Some id).
Proof.
  intros [Hne Hall] Hsl. unfold regex_bare. simpl Re.seq. rewrite search_bos.
  unfold Re.match_at. simpl. greedy Hsl.
Qed.

Lemma bare_rejects_url sch tail :
  is_scheme sch -> Re.search regex_bare (sch ++ "://" ++ tail) = None.
Proof.
  intros Hs. unfold regex_bare. simpl Re.seq. rewrite search_bos.
  destruct Hs as [-> | ->]; reflexivity.
Qed.

Lemma short_matches sch h id sl :
  is_scheme sch -> is_host h -> is_id id -> opt_slash sl ->
  Re.search regex_short (sch ++ "://" ++ h ++ ".reddit.com/" ++ id ++ sl)
  = Some (Some id).
Proof.
  intros Hs Hh [Hne Hall] Hsl. unfold regex_short, reddit_host. simpl Re.seq.
  rewrite search_bos. unfold Re.match_at.
  destruct Hs as [-> | ->]; destruct Hh as [-> | [-> | [-> | ->]]]; simpl;
    rewrite ?append_empty_l; greedy Hsl.
Qed.

Lemma short_rejects_full sch h community tail :
  is_scheme sch -> is_host h -> is_community community ->
  Re.search regex_short
            (sch ++ "://" ++ h ++ ".reddit.com/r/" ++ community ++ "/comments/" ++ tail)
  = None.
Proof.
  intros Hs Hh [Hne Hall]. unfold regex_short, reddit_host. simpl Re.seq.
  rewrite search_bos. unfold Re.match_at.
  destruct community as [|c [|c' cs]]; [congruence | |];
  destruct Hs as [-> | ->]; destruct Hh as [-> | [-> | [-> | ->]]]; reflexivity.
Qed.

Lemma full_matches sch h community id rest :
  is_scheme sch -> is_host h -> is_community community -> is_id id ->
  stops id_char rest ->
  Re.search regex_full
            (sch ++ "://" ++ h ++ ".reddit.com/r/" ++ community ++ "/comments/"
                 ++ id ++ rest)
  = Some (Some id).
Proof.
  intros Hs Hh [Hcne Hcall] [Hne Hall] Hrest. unfold regex_full, reddit_host.
  simpl Re.seq. rewrite search_bos. unfold Re.match_at.
  destruct Hs as [-> | ->]; destruct Hh as [-> | [-> | [-> | ->]]]; simpl;
    rewrite ?append_empty_l.
  all: erewrite (plus_greedy sub_char community);
    [reflexivity | assumption | assumption | reflexivity | ].
  all: simpl; rewrite ?append_empty_l.
  all: erewrite (plus_greedy id_char id);
    [reflexivity | assumption | assumption | assumption | ].
  all: simpl.
  all: rewrite ?Nat.sub_0_r, ?add_sub_l, ?take_app_length.
  all: destruct rest as [|c r]; [reflexivity|].
  all: destruct c as [[] [] [] [] [] [] [] []]; reflexivity.
Qed.

Lemma extract_id_shape url id : shape url id -> extract_id url = Some id.
Proof.
  intros H. unfold extract_id, regexes.
  destruct H as [id sl Hid Hsl | sch h id sl Hs Hh Hid Hsl
                | sch h community id rest Hs Hh Hc Hid Hr]; simpl.
  - rewrite bare_matches by assumption. reflexivity.
  - rewrite bare_rejects_url by assumption.
    rewrite short_matches by assumption. reflexivity.
  - rewrite bare_rejects_url by assumption.
    rewrite (short_rejects_full sch h community (id ++ rest)) by assumption.
    rewrite full_matches by assumption. reflexivity.
Qed.

(** ** The tree of nodes and its reconstruction *)


Lemma Node_ind' (P : Node -> Prop) :
  (forall i nm ch, Forall P ch -> P (mkNode i nm ch)) -> forall n, P n.
Proof.
  intros H. fix IH 1. intros [i nm ch]. apply H.
  induction ch as [|c ch IHch]; constructor; [apply IH | exact IHch].
Qed.

Lemma fill_process_all q st : fill q st = process_all (dequeue_order q) st.
Proof.
  funelim (fill q st); simp dequeue_order; simpl.
  - reflexivity.
  - rewrite Heq. reflexivity.
  - rewrite Heq. simpl. apply H.
Qed.


Lemma rows_ids t : forall par d, map NodeRow.id (rows par d t) = ids t.
Proof.
  induction t as [i nm ch IH] using Node_ind'; intros par d; simpl. f_equal.
  induction IH as [|c ch Hc _ IHch]; simpl; [reflexivity|].
  rewrite map_app, Hc, IHch. reflexivity.
Qed.

Lemma in_rows_ids r par d t : In r (rows par d t) -> In (NodeRow.id r) (ids t).
Proof. intros H. rewrite <- (rows_ids t par d). apply in_map, H. Qed.

Lemma attach_id p new t : nid (attach p new t) = nid t.
Proof. destruct t as [i nm ch]; simpl. destruct (Nat.eqb i p); reflexivity. Qed.

Lemma attach_name p new t : name (attach p new t) = name t.
Proof. destruct t as [i nm ch]; simpl. destruct (Nat.eqb i p); reflexivity. Qed.

Lemma attach_absent p new t : ~ In p (ids t) -> attach p new t = t.
Proof.
  induction t as [i nm ch IH] using Node_ind'; simpl; intros Hp.
  destruct (Nat.eqb_spec i p) as [->|Hne]; [tauto|]. f_equal.
  assert (Hch : ~ In p (flat_map ids ch)) by tauto. clear Hp.
  induction IH as [|c ch Hc _ IHch]; simpl in *; [reflexivity|].
  rewrite in_app_iff in Hch. rewrite Hc, IHch by tauto. reflexivity.
Qed.

Lemma nodup_app_disjoint {A} (l1 l2 : list A) x :
  List.NoDup (l1 ++ l2) -> In x l1 -> In x l2 -> False.
Proof.
  intros H%NoDup_ListNoDup%NoDup_app. destruct H as (_ & Hd & _).
  rewrite <- !list_elem_of_In. apply Hd.
Qed.

Lemma in_rows_forest r par d ch :
  In r (flat_map (rows par d) ch) -> In (NodeRow.id r) (flat_map ids ch).
Proof.
  rewrite !in_flat_map. intros (c & Hc & Hr). exists c. split; [exact Hc|].
  eapply in_rows_ids, Hr.
Qed.

Lemma rows_attach p nmp parp dp new t :
  forall par d,
  List.NoDup (ids t) ->
  In (NodeRow.mk p nmp parp dp) (rows par d t) ->
  Permutation (rows par d (attach p new t)) (rows par d t ++ rows (Some p) (S dp) new).
Proof.
  induction t as [i nm ch IH] using Node_ind'; intros par d Hnd Hin.
  simpl in Hnd. apply NoDup_cons_iff in Hnd as [Hi Hnd]. simpl in Hin. simpl attach.
  destruct (Nat.eqb_spec i p) as [->|Hne].
  - destruct Hin as [Heq | Hin].
    + injection Heq as _ _ ->. simpl. rewrite flat_map_app. simpl.
      rewrite app_nil_r. reflexivity.
    + exfalso. apply Hi. apply (in_rows_forest _ _ _ _ Hin).
  - destruct Hin as [Heq | Hin]; [injection Heq as Heq; congruence|].
    simpl. apply perm_skip. clear Hi.
    induction IH as [|c ch Hc _ IHch]; simpl in *; [contradiction|].
    apply List.NoDup_app_remove_l in Hnd as Hndr.
    apply List.NoDup_app_remove_r in Hnd as Hndl.
    apply in_app_or in Hin as [Hin | Hin].
    + rewrite (Hc _ _ Hndl Hin).
      assert (Hmap : map (attach p new) ch = ch).
      { clear IHch. rewrite <- (map_id ch) at 2. apply map_ext_in. intros c' Hc'.
        apply attach_absent. intros Hp.
        apply (nodup_app_disjoint _ _ p Hnd); [exact (in_rows_ids _ _ _ _ Hin)|].
        apply in_flat_map. exists c'. split; assumption. }
      rewrite Hmap. rewrite <- !app_assoc. apply Permutation_app_head, Permutation_app_comm.
    + rewrite attach_absent.
      * rewrite (IHch Hndr Hin). rewrite app_assoc. reflexivity.
      * intros Hp. apply (nodup_app_disjoint _ _ p Hnd Hp).
        apply (in_rows_forest _ _ _ _ Hin).
Qed.

Lemma rows_preorder t : forall par d,
  map (fun r => (NodeRow.name r, NodeRow.depth r)) (rows par d t)
  = map (fun x => (name (fst x), snd x)) (preorder d t).
Proof.
  induction t as [i nm ch IH] using Node_ind'; intros par d; simpl. f_equal.
  induction IH as [|c ch Hc _ IHch]; simpl; [reflexivity|].
  rewrite !map_app, Hc, IHch. reflexivity.
Qed.

Lemma map_nid_attach p new ch : map nid (map (attach p new) ch) = map nid ch.
Proof. rewrite map_map. apply map_ext. intros c. apply attach_id. Qed.

(** what a node of the tree looks like after a leaf has been attached *)
Lemma attach_preorder_inv p j nm' t :
  let new := mkNode j nm' [] in
  forall k n' d,
  In (n', d) (preorder k (attach p new t)) ->
  n' = new \/
  exists n, In (n, d) (preorder k t) /\ nid n' = nid n /\ name n' = name n /\
            (map nid (children n') = map nid (children n) \/
             map nid (children n') = (map nid (children n) ++ [j])%list).
Proof.
  intros new. induction t as [i nm ch IH] using Node_ind'; intros k n' d Hin.
  simpl attach in Hin. destruct (Nat.eqb_spec i p) as [->|Hne].
  - simpl in Hin. destruct Hin as [Heq | Hin].
    + injection Heq as <- <-. right. exists (mkNode p nm ch). simpl.
      repeat split; [left; reflexivity | right]. rewrite map_app. reflexivity.
    + rewrite flat_map_app in Hin. simpl in Hin. rewrite ?app_nil_r in Hin.
      apply in_app_or in Hin as [Hin | [Heq | []]].
      * right. exists n'. simpl. repeat split; [right; exact Hin | left; reflexivity].
      * injection Heq as <- _. left. reflexivity.
  - simpl in Hin. destruct Hin as [Heq | Hin].
    + injection Heq as <- <-. right. exists (mkNode i nm ch). simpl.
      repeat split; [left; reflexivity | left; apply map_nid_attach].
    + apply in_flat_map in Hin as (c' & Hc' & Hin).
      apply in_map_iff in Hc' as (c & <- & Hc).
      rewrite List.Forall_forall in IH. destruct (IH c Hc _ _ _ Hin) as [-> | (n & Hn & Hrest)].
      * left. reflexivity.
      * right. exists n. split; [|exact Hrest]. simpl. right.
        apply in_flat_map. exists c. split; assumption.
Qed.

Lemma in_preorder_ids n d k t : In (n, d) (preorder k t) -> In (nid n) (ids t).
Proof.
  revert k. induction t as [i nm ch IH] using Node_ind'; intros k; simpl.
  intros [Heq | Hin].
  - injection Heq as <- _. left. reflexivity.
  - right. apply in_flat_map in Hin as (c & Hc & Hin). apply in_flat_map.
    exists c. split; [exact Hc|]. rewrite List.Forall_forall in IH. eapply IH; eassumption.
Qed.



Lemma t1_neq_t3 c sid : t1 c <> t3 sid.
Proof. unfold t1, t3. intros H. inversion H. Qed.


Lemma inv_start sid : inv sid [] (start sid).
Proof.
  split; simpl; try reflexivity.
  - split; reflexivity.
  - apply lookup_singleton_eq.
  - intros k i H. apply lookup_singleton_Some in H as [<- <-].
    eexists. split; [left; reflexivity|]. split; reflexivity.
  - intros k. rewrite <- not_eq_None_Some. split.
    + intros H. left. destruct (decide (t3 sid = k)) as [<-|Hne]; [reflexivity|].
      rewrite lookup_singleton_ne in H by assumption. congruence.
    + intros [-> | []]. rewrite lookup_singleton_eq. congruence.
  - intros [|i] c H; discriminate.
  - intros r [<- | []] H. simpl in H. congruence.
  - intros k en H. rewrite lookup_empty in H. discriminate.
  - intros c [].
  - intros n d [Heq | []]. injection Heq as <- _. simpl. split; constructor.
Qed.

Lemma sorted_snoc (l : list nat) (x : nat) :
  StronglySorted lt l -> Forall (fun j => j < x) l -> StronglySorted lt (l ++ [x])%list.
Proof.
  induction 1 as [|a l Hs IH Ha]; intros Hx; simpl.
  - repeat constructor.
  - apply Forall_cons_1 in Hx as [Hax Hx]. constructor; [apply IH, Hx|].
    apply Forall_app. split; [exact Ha | constructor; [exact Hax | constructor]].
Qed.

Lemma process_inv sid done st c p :
  inv sid done st ->
  comments_index st !! Comment.parent_id c = Some p ->
  exists st', process c st = inr st' /\ inv sid (done ++ [c]) st'.
Proof.
  intros I Hp. unfold process. rewrite Hp. eexists. split; [reflexivity|].
  destruct (inv_index _ _ _ I _ _ Hp) as ([p' nmp parp dp] & Hrp & Hidp & Hnmp).
  simpl in Hidp, Hnmp. subst p' nmp.
  set (new := mkNode (fresh st) (t1 c) []).
  set (row := NodeRow.mk (fresh st) (t1 c) (Some p) (S dp)).
  assert (Hnd : List.NoDup (ids (tree st))).
  { eapply Permutation_NoDup; [symmetry; apply (inv_ids _ _ _ I) | apply List.seq_NoDup]. }
  assert (Hperm : Permutation (rows None 0 (attach p new (tree st))) (table st ++ [row])).
  { apply (rows_attach p _ _ _ new (tree st) None 0 Hnd Hrp). }
  assert (Hold : forall r, In r (table st) -> In r (rows None 0 (attach p new (tree st)))).
  { intros r Hr. eapply Permutation_in; [symmetry; exact Hperm|].
    apply in_or_app. left. exact Hr. }
  assert (Hnew : In row (rows None 0 (attach p new (tree st)))).
  { eapply Permutation_in; [symmetry; exact Hperm|].
    apply in_or_app. right. left. reflexivity. }
  assert (Hplt : p < fresh st).
  { assert (H : In p (seq 0 (fresh st))).
    { eapply Permutation_in; [apply (inv_ids _ _ _ I)|]. exact (in_rows_ids _ _ _ _ Hrp). }
    apply in_seq in H. lia. }
  split; unfold table; cbn [tree fresh comments_index comments_forest].
  - rewrite length_app, (inv_fresh _ _ _ I). simpl. lia.
  - rewrite <- (rows_ids _ None 0), Hperm, map_app. unfold table.
    rewrite (rows_ids _ None 0), (inv_ids _ _ _ I), seq_S. reflexivity.
  - rewrite attach_id, attach_name. apply (inv_root _ _ _ I).
  - rewrite lookup_insert_ne by apply t1_neq_t3. apply (inv_index_root _ _ _ I).
  - intros k i Hk. destruct (decide (t1 c = k)) as [<-|Hne].
    + rewrite lookup_insert_eq in Hk. injection Hk as <-.
      exists row. split; [exact Hnew | split; reflexivity].
    + rewrite lookup_insert_ne in Hk by assumption.
      destruct (inv_index _ _ _ I _ _ Hk) as (r & Hr & Hrest).
      exists r. split; [apply Hold, Hr | exact Hrest].
  - intros k. rewrite lookup_insert_is_Some, (inv_keys _ _ _ I), map_app, in_app_iff.
    simpl. destruct (decide (t1 c = k)); tauto.
  - intros i c0 Hi. destruct (Nat.lt_ge_cases i (List.length done)) as [Hlt | Hge].
    + rewrite nth_error_app1 in Hi by assumption.
      destruct (inv_nodes _ _ _ I _ _ Hi) as (r & rp & Hr & Hrp' & Hrest).
      exists r, rp. split; [apply Hold, Hr|]. split; [apply Hold, Hrp'|]. exact Hrest.
    + rewrite nth_error_app2 in Hi by assumption.
      destruct (i - List.length done) as [|[|]] eqn:Hd; try discriminate.
      injection Hi as <-. assert (i = List.length done) by lia. subst i.
      exists row, (NodeRow.mk p (Comment.parent_id c) parp dp).
      split; [exact Hnew|]. split; [apply Hold, Hrp|]. simpl.
      rewrite (inv_fresh _ _ _ I) in *. repeat split; lia.
  - intros r Hr Hid. eapply Permutation_in in Hr; [|exact Hperm].
    apply in_app_or in Hr as [Hr | [<- | []]].
    + destruct (inv_names _ _ _ I r Hr Hid) as (c0 & Hc0 & Hnm).
      exists c0. split; [apply in_or_app; left; exact Hc0 | exact Hnm].
    + exists c. split; [apply in_or_app; right; left; reflexivity | reflexivity].
  - intros k en Hk. destruct (decide (t1 c = k)) as [<-|Hne].
    + rewrite lookup_insert_eq in Hk. injection Hk as <-.
      exists c. split; [apply in_or_app; right; left; reflexivity | split; reflexivity].
    + rewrite lookup_insert_ne in Hk by assumption.
      destruct (inv_forest _ _ _ I _ _ Hk) as (c0 & Hc0 & Hrest).
      exists c0. split; [apply in_or_app; left; exact Hc0 | exact Hrest].
  - intros c0 Hc0. rewrite lookup_insert_is_Some.
    destruct (decide (t1 c = t1 c0)) as [|Hne]; [left; assumption|].
    right. split; [assumption|]. apply in_app_or in Hc0 as [Hc0 | [-> | []]].
    + apply (inv_forest_dom _ _ _ I), Hc0.
    + congruence.
  - intros n' d Hin.
    destruct (attach_preorder_inv p (fresh st) (t1 c) (tree st) 0 n' d Hin)
      as [-> | (n & Hn & _ & _ & Hkids)].
    + simpl. split; constructor.
    + destruct (inv_kids _ _ _ I _ _ Hn) as [Hs Hb].
      destruct Hkids as [-> | ->].
      * split; [exact Hs|]. eapply List.Forall_impl; [|exact Hb]. simpl. lia.
      * split; [apply sorted_snoc; assumption|].
        apply Forall_app. split.
        -- eapply List.Forall_impl; [|exact Hb]. simpl. lia.
        -- repeat constructor.
Qed.


Lemma existsb_known k known : existsb (String.eqb k) known = true <-> In k known.
Proof.
  rewrite existsb_exists. split.
  - intros (x & Hx & Heq). apply String.eqb_eq in Heq. congruence.
  - intros H. exists k. split; [exact H | apply String.eqb_refl].
Qed.

Lemma knows_step sid done known c :
  knows sid done known -> knows sid (done ++ [c]) (t1 c :: known).
Proof.
  intros H k. simpl. rewrite (H k), map_app, in_app_iff. simpl.
  split; [intros [<- | [-> | Hin]] | intros [-> | [Hin | [<- | []]]]]; tauto.
Qed.

Lemma process_all_ok sid todo : forall done st known,
  inv sid done st -> knows sid done known ->
  first_orphan known todo = None ->
  exists st', process_all todo st = inr st' /\ inv sid (done ++ todo) st'.
Proof.
  induction todo as [|c todo IH]; intros done st known I K Hfo; simpl in *.
  - exists st. rewrite app_nil_r. split; [reflexivity | exact I].
  - destruct (existsb _ known) eqn:Hex; [|discriminate].
    apply existsb_known, K, (inv_keys _ _ _ I) in Hex as [p Hp].
    destruct (process_inv _ _ _ c p I Hp) as (st1 & -> & I1). simpl.
    destruct (IH _ _ _ I1 (knows_step _ _ _ c K) Hfo) as (st' & Hst' & I').
    exists st'. rewrite <- app_assoc in I'. split; assumption.
Qed.

Lemma process_all_orphan sid todo : forall done st known c,
  inv sid done st -> knows sid done known ->
  first_orphan known todo = Some c ->
  process_all todo st = inl (KeyError (Comment.parent_id c)).
Proof.
  induction todo as [|c0 todo IH]; intros done st known c I K Hfo; simpl in *.
  - discriminate.
  - destruct (existsb _ known) eqn:Hex.
    + apply existsb_known, K, (inv_keys _ _ _ I) in Hex as [p Hp].
      destruct (process_inv _ _ _ c0 p I Hp) as (st1 & -> & I1). simpl.
      apply (IH _ _ _ _ I1 (knows_step _ _ _ c0 K) Hfo).
    + injection Hfo as <-. unfold process.
      destruct (comments_index st !! Comment.parent_id c0) eqn:Hl; [|reflexivity].
      exfalso. assert (H : existsb (String.eqb (Comment.parent_id c0)) known = true).
      { apply existsb_known, K, (inv_keys _ _ _ I). eauto. }
      congruence.
Qed.

Lemma knows_start sid : knows sid [] [t3 sid].
Proof. intros k. simpl. split; [intros [<- | []] | intros [-> | []]]; tauto. Qed.

Lemma download_ok E submission sid :
  replace_more E submission = None ->
  first_orphan [t3 sid] (dequeue_order (Submission.comments submission)) = None ->
  exists b, download_submission E submission sid = inr (submission, b)
            /\ inv sid (dequeue_order (Submission.comments submission)) b.
Proof.
  intros Hrm Hfo. unfold download_submission. rewrite Hrm, fill_process_all.
  destruct (process_all_ok sid _ [] _ _ (inv_start sid) (knows_start sid) Hfo)
    as (b & Hb & I).
  exists b. rewrite Hb. split; [reflexivity | exact I].
Qed.

Lemma download_orphan E submission sid c :
  replace_more E submission = None ->
  first_orphan [t3 sid] (dequeue_order (Submission.comments submission)) = Some c ->
  download_submission E submission sid = inl (KeyError (Comment.parent_id c)).
Proof.
  intros Hrm Hfo. unfold download_submission. rewrite Hrm, fill_process_all.
  pose proof (process_all_orphan sid _ [] (start sid) _ c (inv_start sid)
                (knows_start sid) Hfo) as H.
  rewrite H. reflexivity.
Qed.

Lemma rows_parent t : forall par d r,
  In r (rows par d t) ->
  r = NodeRow.mk (nid t) (name t) par d \/
  exists rp, In rp (rows par d t) /\ NodeRow.parent r = Some (NodeRow.id rp)
             /\ NodeRow.depth r = S (NodeRow.depth rp).
Proof.
  induction t as [i nm ch IH] using Node_ind'; intros par d r; simpl.
  intros [<- | Hin]; [left; reflexivity|]. right.
  apply in_flat_map in Hin as (c & Hc & Hin).
  rewrite List.Forall_forall in IH. destruct (IH c Hc _ _ _ Hin) as [-> | (rp & Hrp & Hrest)].
  - eexists. split; [left; reflexivity|]. split; reflexivity.
  - exists rp. split; [|exact Hrest]. right. apply in_flat_map. exists c. split; assumption.
Qed.

Lemma dequeue_prefix q : exists rest, dequeue_order q = (q ++ rest)%list.
Proof.
  funelim (dequeue_order q); simp dequeue_order.
  - exists []. reflexivity.
  - destruct H as [x Hx]. rewrite Hx. exists (Comment.replies comment ++ x)%list.
    rewrite <- app_assoc. reflexivity.
Qed.

Lemma dequeue_blocks q c :
  In c (dequeue_order q) ->
  exists l1 l2, dequeue_order q = (l1 ++ Comment.replies c ++ l2)%list.
Proof.
  funelim (dequeue_order q); simp dequeue_order; [intros []|].
  intros [-> | Hin].
  - destruct (dequeue_prefix (rest ++ Comment.replies c)) as [x Hx].
    exists (c :: rest), x. rewrite Hx, <- app_assoc. reflexivity.
  - destruct (H c Hin) as (l1 & l2 & Heq).
    exists (comment :: l1), l2. rewrite Heq. reflexivity.
Qed.

(** ** The renderer *)

Example parser_paragraphs :
  comment_parser sample_env ("a <b> c" ++ nl ++ nl ++ "d") = "<p>a &lt;b&gt; c</p><p>d</p>".
Proof. reflexivity. Qed.

Example classes_deep :
  classes_of (entry_of (sample_comment "a" "t1_z" None [])) 12 = "e l2".
Proof. reflexivity. Qed.

(** root -> A -> (B, C); root -> D: a closing marker before A, none before
    B, one before C, two before D, none after D *)
Example nested_thread_rendering :
  let b := built_of sample_env nested_thread "s" in
  exists blkA blkB blkC blkD,
    render_comments sample_env "s" (tree b) (comments_index b) (comments_forest b)
    = inr {| html_comments :=
               [ "</div>"; opening "f o l1" "t1_a"; blkA;
                 opening "e l2" "t1_b"; blkB;
                 "</div>"; opening "e l2" "t1_c"; blkC;
                 "</div>"; "</div>"; opening "f o l1" "t1_d"; blkD ];
             previous_comment_level := 1;
             comment_counter := 5 |}.
Proof. intros b. do 4 eexists. vm_compute. reflexivity. Qed.

Lemma closing_markers prev cur : closing prev cur = repeat "</div>" (Spec.markers prev cur).
Proof. unfold closing, Spec.markers. destruct (cur <=? prev)%nat; reflexivity. Qed.

Lemma visit_covered E forest node v :
  covered forest node ->
  visit E forest node v
  = inr {| html_comments :=
             (html_comments v
              ++ repeat "</div>" (Spec.markers (previous_comment_level v) (snd node))
              ++ pieces E forest node)%list;
           previous_comment_level := snd node;
           comment_counter := S (comment_counter v) |}.
Proof.
  intros (Ht3 & en & body & Hen & Hb). unfold visit, pieces.
  rewrite Ht3, Hen, Hb, closing_markers. reflexivity.
Qed.

Lemma visit_submission E forest n d v submission_id :
  name n = t3 submission_id -> visit E forest (n, d) v = inr v.
Proof. intros H. unfold visit. simpl. rewrite H. reflexivity. Qed.

Lemma last_cons {A} (a : A) l : forall d, List.last (a :: l) d = List.last l a.
Proof.
  revert a. induction l as [|b l IH]; intros a d; [reflexivity|].
  change (List.last (a :: b :: l) d) with (List.last (b :: l) d).
  rewrite (IH b d), (IH b a). reflexivity.
Qed.

Lemma for_each_covered E forest nodes : forall v,
  Forall (covered forest) nodes ->
  exists v', for_each E forest nodes v = inr v' /\
    html_comments v'
    = (html_comments v
       ++ Spec.emit (pieces E forest) (previous_comment_level v) nodes)%list /\
    previous_comment_level v' = List.last (map snd nodes) (previous_comment_level v) /\
    comment_counter v' = comment_counter v + List.length nodes.
Proof.
  induction nodes as [|node nodes IH]; intros v Hc.
  - exists v. simpl. rewrite app_nil_r. repeat split. lia.
  - apply Forall_cons_1 in Hc as [Hn Hc]. simpl for_each.
    rewrite (visit_covered E _ _ v Hn). simpl rbind.
    match goal with
    | |- context [for_each E forest nodes ?st] =>
        destruct (IH st Hc) as (v' & -> & Hhtml & Hprev & Hcnt)
    end.
    exists v'.
    split; [reflexivity|]. cbn [html_comments previous_comment_level comment_counter] in *.
    rewrite Hhtml, Hprev, Hcnt. cbn [map List.length Spec.emit].
    rewrite last_cons, <- !app_assoc. repeat split. lia.
Qed.


Lemma count_closing_app l1 l2 :
  count_closing (l1 ++ l2) = count_closing l1 + count_closing l2.
Proof. unfold count_closing. rewrite filter_app, length_app. reflexivity. Qed.

Lemma count_closing_repeat n : count_closing (repeat "</div>" n) = n.
Proof.
  unfold count_closing. induction n; simpl; [reflexivity|]. simpl in IHn. lia.
Qed.

Lemma count_closing_pieces E forest node : count_closing (pieces E forest node) = 0.
Proof.
  unfold pieces. destruct (forest !! name (fst node)) as [en|]; [|reflexivity].
  destruct (Entry.b en); reflexivity.
Qed.

(** the closing markers of a traversal are those the depths call for *)
Lemma count_closing_emit E forest nodes : forall p,
  count_closing (Spec.emit (pieces E forest) p nodes)
  = Spec.total_markers p (map snd nodes).
Proof.
  induction nodes as [|n nodes IH]; intros p; simpl; [reflexivity|].
  rewrite !count_closing_app, count_closing_repeat, count_closing_pieces, IH. lia.
Qed.

Lemma preorder_row n d t : forall k par,
  In (n, d) (preorder k t) ->
  exists par', In (NodeRow.mk (nid n) (name n) par' d) (rows par k t).
Proof.
  induction t as [i nm ch IH] using Node_ind'; intros k par; simpl.
  intros [Heq | Hin].
  - injection Heq as <- <-. eexists. left. reflexivity.
  - apply in_flat_map in Hin as (c & Hc & Hin). rewrite List.Forall_forall in IH.
    destruct (IH c Hc _ (Some i) Hin) as (par' & Hrow). exists par'. right.
    apply in_flat_map. exists c. split; assumption.
Qed.

Lemma t1_not_submission c : String.eqb (Str.take 2 (t1 c)) "t3" = false.
Proof. reflexivity. Qed.

Lemma entry_has_body c : exists body, Entry.b (entry_of c) = Some body.
Proof. simpl. destruct (Comment.body c); simpl; eauto. Qed.

(** every node below the root of a reconstructed tree can be rendered *)
Lemma inv_covered sid done st :
  inv sid done st -> Forall (covered (comments_forest st)) (real_nodes (tree st)).
Proof.
  intros I. apply List.Forall_forall. intros [n d] Hin.
  assert (Hnd : List.NoDup (ids (tree st))).
  { eapply Permutation_NoDup; [symmetry; apply (inv_ids _ _ _ I) | apply List.seq_NoDup]. }
  destruct (inv_root _ _ _ I) as [Hid _].
  unfold real_nodes in Hin. unfold table in *.
  destruct (tree st) as [i nm ch] eqn:Ht. simpl in Hid, Hin, Hnd. subst i.
  apply NoDup_cons_iff in Hnd as [H0 _].
  assert (Hrow : exists par', In (NodeRow.mk (nid n) (name n) par' d)
                                 (rows None 0 (mkNode 0 nm ch))).
  { apply preorder_row. simpl. right. exact Hin. }
  destruct Hrow as (par' & Hrow).
  assert (Hne : nid n <> 0).
  { intros Heq. apply H0. rewrite <- Heq.
    apply in_flat_map in Hin as (c & Hc & Hin). apply in_flat_map.
    exists c. split; [exact Hc | eapply in_preorder_ids, Hin]. }
  rewrite <- Ht in Hrow.
  destruct (inv_names _ _ _ I _ Hrow Hne) as (c & Hc & Hnm). simpl in Hnm.
  split; simpl.
  - rewrite Hnm. exact (t1_not_submission c).
  - rewrite Hnm. destruct (inv_forest_dom _ _ _ I c Hc) as [en Hen].
    destruct (inv_forest _ _ _ I _ _ Hen) as (c' & _ & _ & ->).
    destruct (entry_has_body c') as [body Hb]. eauto.
Qed.


(** the loop over a reconstructed tree: the root is passed over, and the
    nodes below it are rendered in turn *)
Lemma render_comments_inv E sid done st :
  inv sid done st ->
  exists v, render_comments E sid (tree st) (comments_index st) (comments_forest st) = inr v /\
    html_comments v = Spec.emit (pieces E (comments_forest st)) 1 (real_nodes (tree st)) /\
    previous_comment_level v = List.last (map snd (real_nodes (tree st))) 1.
Proof.
  intros I. unfold render_comments. rewrite (inv_index_root _ _ _ I).
  destruct (inv_root _ _ _ I) as [Hid Hnm].
  pose proof (inv_covered _ _ _ I) as Hcov.
  destruct (tree st) as [i nm ch] eqn:Ht. simpl in Hid, Hnm. subst i nm.
  simpl find_node. cbn [preorder for_each].
  rewrite (visit_submission _ _ _ _ _ sid) by reflexivity. simpl rbind.
  destruct (for_each_covered E (comments_forest st) _ loop_start Hcov)
    as (v & Hv & Hhtml & Hprev & _).
  exists v. unfold real_nodes in *. simpl in *. auto.
Qed.

Lemma download_inv E submission sid s b :
  download_submission E submission sid = inr (s, b) ->
  s = submission /\ replace_more E submission = None /\
  first_orphan [t3 sid] (dequeue_order (Submission.comments submission)) = None /\
  inv sid (dequeue_order (Submission.comments submission)) b.
Proof.
  intros H. destruct (replace_more E submission) as [e|] eqn:Hrm.
  { unfold download_submission in H. rewrite Hrm in H. discriminate. }
  destruct (first_orphan [t3 sid] (dequeue_order (Submission.comments submission)))
    as [c|] eqn:Hfo.
  { rewrite (download_orphan _ _ _ _ Hrm Hfo) in H. discriminate. }
  destruct (download_ok _ _ _ Hrm Hfo) as (b' & Hb' & I).
  rewrite Hb' in H. injection H as <- <-. auto.
Qed.

(** ** Removing the paragraph markers *)

Lemma replace_from_skip old new s : forall k,
  Str.replace_from old new k s = Str.replace old new (Str.drop k s).
Proof.
  unfold Str.replace. induction s as [|c r IH]; intros [|k]; simpl; try reflexivity.
  apply IH.
Qed.

Lemma replace_match old new c r :
  Str.starts old (String c r) = true ->
  Str.replace old new (String c r)
  = new ++ Str.replace old new (Str.drop (String.length old - 1) r).
Proof.
  intros H. unfold Str.replace at 1. cbn [Str.replace_from]. rewrite H.
  rewrite replace_from_skip. reflexivity.
Qed.

Lemma replace_nomatch old new c r :
  Str.starts old (String c r) = false ->
  Str.replace old new (String c r) = String c (Str.replace old new r).
Proof. intros H. unfold Str.replace. cbn [Str.replace_from]. rewrite H. reflexivity. Qed.

Lemma occurs_cons w c r :
  Str.occurs w (String c r) = Str.starts w (String c r) || Str.occurs w r.
Proof. reflexivity. Qed.

Lemma occurs_drop w s : forall k, Str.occurs w s = false -> Str.occurs w (Str.drop k s) = false.
Proof.
  induction s as [|c r IH]; intros [|k] H; simpl Str.drop; try exact H.
  rewrite occurs_cons in H. apply orb_false_elim in H as [_ H]. apply IH, H.
Qed.

Lemma free_of_drop words s k : free_of words s = true -> free_of words (Str.drop k s) = true.
Proof.
  unfold free_of. rewrite !forallb_forall. intros H w Hw.
  specialize (H w Hw). apply negb_true_iff in H. apply negb_true_iff.
  apply occurs_drop, H.
Qed.

Lemma free_of_starts words s w :
  free_of words s = true -> In w words -> Str.starts w s = false.
Proof.
  unfold free_of. rewrite forallb_forall. intros H Hw. specialize (H w Hw).
  apply negb_true_iff in H. destruct s; simpl in H.
  - rewrite orb_false_r in H. exact H.
  - apply orb_false_elim in H as [H _]. exact H.
Qed.

Lemma length_drop_le k : forall s, String.length (Str.drop k s) <= String.length s.
Proof.
  induction k as [|k IH]; intros [|c r]; simpl; try lia. specialize (IH r). lia.
Qed.

Section Remove.
Variable tail : string.
Let old : string := String "<" tail.
Let R : string -> string := Str.replace old "".

Lemma R_plain c r : Ascii.eqb "<" c = false -> R (String c r) = String c (R r).
Proof.
  intros H. apply replace_nomatch. unfold old. cbn [Str.starts]. rewrite H. reflexivity.
Qed.

Lemma R_keep r :
  Str.starts "<" r = false ->
  R r = match r with "" => "" | String c r0 => String c (R r0) end.
Proof.
  destruct r as [|c r0]; [reflexivity|]. intros H. apply R_plain.
  cbn [Str.starts] in H. destruct (Ascii.eqb "<" c); [discriminate | reflexivity].
Qed.

(** what [R r] starts with, [r] starts with, unless [r] starts with [<] *)
Lemma R_head r x y :
  R r = String x y -> Str.starts (String x "") r = true \/ Str.starts "<" r = true.
Proof.
  destruct r as [|c r0]; [discriminate|]. intros H.
  destruct (Ascii.eqb "<" c) eqn:Hc.
  - right. cbn [Str.starts]. rewrite Hc. reflexivity.
  - rewrite R_plain in H by exact Hc. injection H as <- _. left. cbn [Str.starts].
    rewrite Ascii.eqb_refl. reflexivity.
Qed.

Lemma R_chain w : forall r,
  w <> "" -> inner_plain w = true ->
  Str.starts w (R r) = true ->
  Str.starts w r = true \/ runs_into w r = true.
Proof.
  induction w as [|x w IH]; intros r Hne Hplain H; [congruence|].
  destruct (Str.starts "<" r) eqn:Hlt.
  { right. cbn [runs_into]. rewrite Hlt. reflexivity. }
  rewrite (R_keep r Hlt) in H. destruct r as [|c r0]; [discriminate|].
  cbn [Str.starts] in H. destruct (Ascii.eqb x c) eqn:Hxc; [|discriminate].
  destruct w as [|x' w'].
  - left. cbn [Str.starts]. rewrite Hxc. reflexivity.
  - assert (Hp : inner_plain (String x' w') = true).
    { cbn [inner_plain] in Hplain. apply andb_prop in Hplain as [_ Hp]. exact Hp. }
    destruct (IH r0 ltac:(discriminate) Hp H) as [Hs | Hr].
    + left. cbn [Str.starts]. rewrite Hxc. exact Hs.
    + right. cbn [runs_into]. rewrite Hlt, Hxc. exact Hr.
Qed.

Lemma runs_into_joint w : forall r,
  runs_into w r = true ->
  exists b, In b (joints_of w) /\ Str.starts b (String "<" r) = true.
Proof.
  induction w as [|x w IH]; intros r H; [discriminate|]. cbn [runs_into] in H.
  apply orb_prop in H as [H | H].
  - exists "<<". split; [left; reflexivity|].
    destruct r as [|a r]; [discriminate|]. cbn [Str.starts] in *.
    rewrite Ascii.eqb_refl. destruct (Ascii.eqb "<" a); [reflexivity | discriminate].
  - destruct r as [|y r0]; [discriminate|]. apply andb_prop in H as [Hxy Hr].
    destruct (IH r0 Hr) as (b & Hb & Hsb). destruct b as [|b0 b']; [|].
    + exists (String "<" (String x "")). split.
      * cbn [joints_of]. right. apply in_map_iff. exists "". split; [reflexivity | exact Hb].
      * cbn [Str.starts]. rewrite Ascii.eqb_refl, Hxy. reflexivity.
    + exists (String "<" (String x b')). split.
      * cbn [joints_of]. right. apply in_map_iff. exists (String b0 b').
        split; [reflexivity | exact Hb].
      * cbn [Str.starts] in Hsb |- *. rewrite Ascii.eqb_refl, Hxy.
        destruct (Ascii.eqb b0 "<"); [exact Hsb | discriminate].
Qed.

(** a word that is absent before the removal, or is the word removed, is
    absent after it *)
Lemma R_absent w :
  w <> "" -> inner_plain w = true ->
  (forall b, In b (joints_of w) -> In b joints) ->
  forall n s, String.length s <= n ->
  tidy s = true ->
  String "<" w = old \/ Str.occurs (String "<" w) s = false ->
  Str.occurs (String "<" w) (R s) = false.
Proof.
  intros Hne Hplain Hj. induction n as [|n IH]; intros s Hn Ht Hw.
  { destruct s; [reflexivity | simpl in Hn; lia]. }
  destruct s as [|c r]; [reflexivity|]. simpl in Hn.
  assert (Hr : tidy r = true) by apply (free_of_drop joints (String c r) 1 Ht).
  assert (Hwr : String "<" w = old \/ Str.occurs (String "<" w) r = false).
  { destruct Hw as [Hw | Hw]; [left; exact Hw | right].
    apply (occurs_drop _ (String c r) 1 Hw). }
  destruct (Str.starts old (String c r)) eqn:Hold.
  - unfold R. rewrite replace_match by exact Hold. rewrite append_empty_l.
    apply IH.
    + pose proof (length_drop_le (String.length old - 1) r). lia.
    + apply free_of_drop, Hr.
    + destruct Hwr as [Hw' | Hw']; [left; exact Hw' | right; apply occurs_drop, Hw'].
  - unfold R. rewrite replace_nomatch by exact Hold. fold R. rewrite occurs_cons.
    rewrite (IH r ltac:(lia) Hr Hwr), orb_false_r.
    destruct (Str.starts (String "<" w) (String c (R r))) eqn:Hs; [|reflexivity].
    exfalso. cbn [Str.starts] in Hs. destruct (Ascii.eqb "<" c) eqn:Hc; [|discriminate].
    apply Ascii.eqb_eq in Hc. subst c.
    destruct (R_chain w r Hne Hplain Hs) as [Hsw | Hrun].
    + assert (Hsw' : Str.starts (String "<" w) (String "<" r) = true) by exact Hsw.
      destruct Hw as [Hw | Hw].
      * rewrite Hw in Hsw'. congruence.
      * rewrite occurs_cons, Hsw' in Hw. discriminate.
    + destruct (runs_into_joint w r Hrun) as (b & Hb & Hsb).
      rewrite (free_of_starts joints _ b Ht (Hj b Hb)) in Hsb. discriminate.
Qed.

End Remove.

Lemma free_of_spec words s :
  free_of words s = true <-> forall w, In w words -> Str.occurs w s = false.
Proof.
  unfold free_of. rewrite forallb_forall. split; intros H w Hw; specialize (H w Hw).
  - apply negb_true_iff, H.
  - apply negb_true_iff, H.
Qed.

Ltac in_joints :=
  let b := fresh "b" in let Hb := fresh "Hb" in
  intros b Hb; simpl in Hb;
  repeat (destruct Hb as [<- | Hb]; [simpl; tauto|]); destruct Hb.

Ltac absent tail w s Ht :=
  apply (R_absent tail w) with (n := String.length s);
  [ discriminate | reflexivity | in_joints | apply le_n | exact Ht | ].

(** removing [<p>] from a tidy text leaves a tidy text without [<p>] *)
Lemma remove_open s :
  tidy s = true ->
  tidy (Str.replace "<p>" "" s) = true /\ Str.occurs "<p>" (Str.replace "<p>" "" s) = false.
Proof.
  intros Ht. pose proof (proj1 (free_of_spec joints s) Ht) as Hfree. split.
  - apply free_of_spec. intros w Hw.
    destruct Hw as [<- | [<- | [<- | [<- | []]]]].
    + absent "p>" "<" s Ht. right. apply Hfree. simpl. tauto.
    + absent "p>" "p<" s Ht. right. apply Hfree. simpl. tauto.
    + absent "p>" "/<" s Ht. right. apply Hfree. simpl. tauto.
    + absent "p>" "/p<" s Ht. right. apply Hfree. simpl. tauto.
  - absent "p>" "p>" s Ht. left. reflexivity.
Qed.

(** removing [</p>] from a tidy text without [<p>] leaves neither marker *)
Lemma remove_close s :
  tidy s = true -> Str.occurs "<p>" s = false ->
  Str.occurs "<p>" (Str.replace "</p>" "" s) = false /\
  Str.occurs "</p>" (Str.replace "</p>" "" s) = false.
Proof.
  intros Ht Hp. split.
  - absent "/p>" "p>" s Ht. right. exact Hp.
  - absent "/p>" "/p>" s Ht. left. reflexivity.
Qed.

Lemma merge_clean html :
  tidy html = true ->
  Str.occurs "<p>" (merge html) = false /\ Str.occurs "</p>" (merge html) = false.
Proof.
  intros Ht. destruct (remove_open html Ht) as [Ht1 Hp1].
  apply remove_close; assumption.
Qed.

(** * The statements of the specification *)

(** C7. [extract_id] tries the bare identifier first, then the shortened
    permalink, then the full permalink, and returns what the first pattern
    that matches captured, which is a non-empty identifier; every reference
    of one of the three supported forms yields the identifier written in it;
    the result is "not found" exactly when none of the three patterns
    matches. *)
Theorem C7_extract_id (url : string) :
  extract_id url
  = match Re.search regex_bare url with
    | Some m => m
    | None =>
        match Re.search regex_short url with
        | Some m => m
        | None =>
            match Re.search regex_full url with
            | Some m => m
            | None => None
            end
        end
    end
  /\ (forall r m, In r regexes -> Re.search r url = Some m ->
        exists id, m = Some id /\ is_id id)
  /\ (forall id, shape url id -> extract_id url = Some id)
  /\ (extract_id url = None <-> forall r, In r regexes -> Re.search r url = None).
Proof.
  split; [reflexivity|]. split; [intros r m; apply search_captures_id|].
  split; [apply extract_id_shape|]. unfold extract_id, regexes. simpl first_match.
  split.
  - intros H r Hr.
    destruct (Re.search regex_bare url) as [m1|] eqn:H1.
    { destruct (search_captures_id regex_bare url m1) as (i & -> & _);
        [simpl; tauto | exact H1 | discriminate]. }
    destruct (Re.search regex_short url) as [m2|] eqn:H2.
    { destruct (search_captures_id regex_short url m2) as (i & -> & _);
        [simpl; tauto | exact H2 | discriminate]. }
    destruct (Re.search regex_full url) as [m3|] eqn:H3.
    { destruct (search_captures_id regex_full url m3) as (i & -> & _);
        [simpl; tauto | exact H3 | discriminate]. }
    destruct Hr as [<- | [<- | [<- | []]]]; assumption.
  - intros H. rewrite !H by (simpl; tauto). reflexivity.
Qed.

Lemma C7_witness :
  shape "https://old.reddit.com/xk3f9/" "xk3f9" /\
  extract_id "https://old.reddit.com/xk3f9/" = Some "xk3f9".
Proof.
  assert (Hs : shape "https://old.reddit.com/xk3f9/" "xk3f9").
  { apply (shape_short "https" "old" "xk3f9" "/").
    - right. reflexivity.
    - right. left. reflexivity.
    - split; [discriminate | reflexivity].
    - right. reflexivity. }
  split; [exact Hs|].
  exact (proj1 (proj2 (proj2 (C7_extract_id "https://old.reddit.com/xk3f9/"))) _ Hs).
Defined.

(** C6. The style tag of a node is a function of its distinguished status,
    its submitter flag and the parity of its depth: nodes that agree on the
    three get the same tag, which is the one for an administrator, else the
    one for a moderator, else the one for the submitter, else the one for an
    even or an odd depth. *)
Theorem C6_style_classification (en1 en2 : Entry.entry) (depth1 depth2 : nat) :
  Entry.d en1 = Entry.d en2 ->
  Entry.o en1 = Entry.o en2 ->
  Nat.even depth1 = Nat.even depth2 ->
  style_class (Entry.d en1) (Entry.o en1) depth1
  = style_class (Entry.d en2) (Entry.o en2) depth2
  /\ (Entry.d en1 = Some "admin" ->
      style_class (Entry.d en1) (Entry.o en1) depth1 = "a ")
  /\ (Entry.d en1 <> Some "admin" -> Entry.d en1 = Some "moderator" ->
      style_class (Entry.d en1) (Entry.o en1) depth1 = "m ")
  /\ (Entry.d en1 <> Some "admin" -> Entry.d en1 <> Some "moderator" ->
      Entry.o en1 = true ->
      style_class (Entry.d en1) (Entry.o en1) depth1 = "p ")
  /\ (Entry.d en1 <> Some "admin" -> Entry.d en1 <> Some "moderator" ->
      Entry.o en1 = false ->
      style_class (Entry.d en1) (Entry.o en1) depth1
      = if Nat.even depth1 then "e " else "o ").
Proof.
  intros Hd Ho Hp.
  assert (Hpar : forall n, Nat.eqb (n mod 2) 0 = Nat.even n).
  { intros n. rewrite <- Nat.bit0_mod, Nat.bit0_odd, <- Nat.negb_even.
    destruct (Nat.even n); reflexivity. }
  assert (Hstr : forall d v, is_str d v = true <-> d = Some v).
  { intros [w|] v; simpl; [|split; discriminate].
    rewrite String.eqb_eq. split; congruence. }
  unfold style_class. rewrite !Hpar, <- Hd, <- Ho, <- Hp.
  split; [reflexivity|].
  destruct (is_str (Entry.d en1) "admin") eqn:Ha.
  { apply Hstr in Ha. repeat split; intros; congruence. }
  destruct (is_str (Entry.d en1) "moderator") eqn:Hm.
  { apply Hstr in Hm. split; [intros H; rewrite H in Ha; discriminate|].
    repeat split; intros; congruence. }
  assert (Hna : Entry.d en1 <> Some "moderator").
  { intros H. apply Hstr in H. congruence. }
  split; [intros H; rewrite H in Ha; discriminate|].
  split; [intros; contradiction|].
  split; intros _ _ ->; reflexivity.
Qed.

Lemma C6_witness :
  let en1 := entry_of (sample_comment "a" "t3_s" (Some "ann") []) in
  let en2 := entry_of (sample_comment "b" "t1_a" None []) in
  style_class (Entry.d en1) (Entry.o en1) 3 = style_class (Entry.d en2) (Entry.o en2) 5
  /\ style_class (Entry.d en1) (Entry.o en1) 3 = "o ".
Proof.
  intros en1 en2.
  destruct (C6_style_classification en1 en2 3 5 eq_refl eq_refl eq_refl)
    as (Hsame & _ & _ & _ & Hparity).
  split; [exact Hsame|].
  apply Hparity; [discriminate | discriminate | reflexivity].
Defined.

(** C8. When the platform answers "not found" or "forbidden", the message of
    that category is printed, but the operation does not end there: the
    handlers of [scrape_url] fall through to the rendering step, which reads
    a variable that was never bound, and [main] reports that as an uncaught
    problem and raises it again.  This holds when the refusal comes from
    [get_submission] and when it comes from [replace_more]. *)
Theorem C8_refusal_falls_through (E : Env) (url submission_id : string)
        (e : exn) (out : list line) :
  extract_id url = Some submission_id ->
  e = NotFound \/ e = Forbidden ->
  (reddit_submission E submission_id = inl e ->
   main E url out
   = ((out ++ [ refusal_line e submission_id;
                uncaught_line E (UnboundLocalError "submission") ])%list,
      inl (UnboundLocalError "submission")))
  /\ (forall submission,
        reddit_submission E submission_id = inr submission ->
        replace_more E submission = Some e ->
        main E url out
        = ((out ++ [ {| text := msg_found submission_id submission
                                          (Submission.num_comments submission);
                        color := 8; stderr := false |};
                     refusal_line e submission_id;
                     uncaught_line E (UnboundLocalError "comments_index") ])%list,
           inl (UnboundLocalError "comments_index"))).
Proof.
  intros Hid He. split.
  - intros Hf. unfold main, try_except, bind, scrape_url. rewrite Hid.
    unfold bind, fetch, try_body, get_submission. rewrite Hf. simpl rbind.
    destruct He as [-> | ->]; cbn; rewrite <- app_assoc; reflexivity.
  - intros submission Hf Hrm. unfold main, try_except, bind, scrape_url. rewrite Hid.
    unfold bind, fetch, try_body, get_submission, download_submission.
    rewrite Hf. simpl rbind. cbv iota beta. rewrite Hrm.
    destruct He as [-> | ->]; cbn; rewrite <- !app_assoc; reflexivity.
Qed.

Lemma C8_witness :
  extract_id "abc" = Some "abc" /\
  main sample_env "abc" []
  = ([ refusal_line NotFound "abc";
       uncaught_line sample_env (UnboundLocalError "submission") ],
     inl (UnboundLocalError "submission")).
Proof.
  split; [reflexivity|].
  exact (proj1 (C8_refusal_falls_through sample_env "abc" "abc" NotFound []
                  eq_refl (or_introl eq_refl)) eq_refl).
Defined.

Lemma first_orphan_app pre : forall known l,
  first_orphan known pre = None ->
  first_orphan known (pre ++ l) = first_orphan (rev (map t1 pre) ++ known)%list l.
Proof.
  induction pre as [|c pre IH]; intros known l H; simpl in *; [reflexivity|].
  destruct (existsb _ known); [|discriminate].
  rewrite (IH _ l H), <- app_assoc. reflexivity.
Qed.

Lemma fill_missing_parent comment rest st :
  comments_index st !! Comment.parent_id comment = None ->
  fill (comment :: rest) st = inl (KeyError (Comment.parent_id comment)).
Proof.
  intros H. rewrite fill_process_all. simp dequeue_order. simpl.
  unfold process. rewrite H. reflexivity.
Qed.

(** C4. A comment whose [parent_id] is not a key of the index when the
    comment is taken from the queue makes [download_submission] raise: no
    tree is returned, so the comment is neither dropped nor put under the
    root, and [scrape_url] lets the error through. *)
Theorem C4_missing_parent_raises (E : Env) (submission : Submission.t)
        (submission_id : string) :
  (forall comment rest st,
     comments_index st !! Comment.parent_id comment = None ->
     fill (comment :: rest) st = inl (KeyError (Comment.parent_id comment)))
  /\ (forall pre c post,
        replace_more E submission = None ->
        dequeue_order (Submission.comments submission) = (pre ++ c :: post)%list ->
        first_orphan [t3 submission_id] pre = None ->
        ~ In (Comment.parent_id c) (t3 submission_id :: map t1 pre) ->
        download_submission E submission submission_id
        = inl (KeyError (Comment.parent_id c))
        /\ forall url out,
             extract_id url = Some submission_id ->
             reddit_submission E submission_id = inr submission ->
             snd (scrape_url E url out) = inl (KeyError (Comment.parent_id c))).
Proof.
  split; [apply fill_missing_parent|].
  intros pre c post Hrm Horder Hpre Hnot.
  assert (Hdl : download_submission E submission submission_id
                = inl (KeyError (Comment.parent_id c))).
  { apply download_orphan; [exact Hrm|]. rewrite Horder.
    rewrite (first_orphan_app pre _ _ Hpre). simpl.
    destruct (existsb _ _) eqn:Hex; [|reflexivity].
    exfalso. apply Hnot. apply existsb_known in Hex.
    apply in_app_or in Hex as [Hin | [<- | []]].
    - right. apply in_rev, Hin.
    - left. reflexivity. }
  split; [exact Hdl|]. intros url out Hid Hf.
  unfold scrape_url. rewrite Hid. unfold bind, fetch, try_body, get_submission.
  rewrite Hf. simpl rbind. cbv iota beta. rewrite Hdl. reflexivity.
Qed.

Lemma C4_witness :
  download_submission sample_env late_parent_thread "s" = inl (KeyError "t1_b").
Proof.
  exact (proj1 (proj2 (C4_missing_parent_raises sample_env late_parent_thread "s")
                  [] (sample_comment "a" "t1_b" (Some "ann") [])
                  [sample_comment "b" "t3_s" (Some "bob") []]
                  eq_refl eq_refl eq_refl
                  ltac:(simpl; intros [H | []]; discriminate H))).
Defined.

Lemma parents_first_no_orphan l : forall known,
  (forall pre c post, l = (pre ++ c :: post)%list ->
     In (Comment.parent_id c) (rev (map t1 pre) ++ known)%list) ->
  first_orphan known l = None.
Proof.
  induction l as [|c l IH]; intros known H; simpl; [reflexivity|].
  assert (Hc : existsb (String.eqb (Comment.parent_id c)) known = true).
  { apply existsb_known. apply (H [] c l eq_refl). }
  rewrite Hc. apply IH. intros pre c' post ->.
  specialize (H (c :: pre) c' post eq_refl). simpl in H.
  rewrite <- app_assoc in H. exact H.
Qed.

Lemma parents_first_ok sid order :
  parents_first sid order -> first_orphan [t3 sid] order = None.
Proof.
  intros H. apply parents_first_no_orphan. intros pre c post Heq.
  destruct (H pre c post Heq) as [Hroot | Hin].
  - apply in_or_app. right. left. exact Hroot.
  - apply in_or_app. left. apply in_rev. rewrite rev_involutive. exact Hin.
Qed.

Lemma no_orphan_parents_first l : forall known,
  first_orphan known l = None ->
  forall pre c post, l = (pre ++ c :: post)%list ->
    In (Comment.parent_id c) (rev (map t1 pre) ++ known)%list.
Proof.
  induction l as [|c0 l IH]; intros known H pre c post Heq.
  - destruct pre; discriminate.
  - simpl in H. destruct (existsb _ known) eqn:Hex; [|discriminate].
    destruct pre as [|c1 pre]; simpl in Heq; injection Heq as <- ->.
    + apply existsb_known, Hex.
    + simpl. rewrite <- app_assoc. apply (IH _ H pre c post eq_refl).
Qed.

Lemma parents_first_iff sid order :
  parents_first sid order <-> first_orphan [t3 sid] order = None.
Proof.
  split; [apply parents_first_ok|]. intros H pre c post Heq.
  apply (no_orphan_parents_first _ _ H) in Heq.
  apply in_app_or in Heq as [Hin | [<- | []]].
  - right. apply in_rev, Hin.
  - left. reflexivity.
Qed.

Lemma tree_size_rows t : tree_size t = List.length (rows None 0 t).
Proof.
  unfold tree_size.
  rewrite <- (length_map (fun x => (name (fst x), snd x)) (preorder 0 t)).
  rewrite <- (rows_preorder t None 0). apply length_map.
Qed.

(** C3. When every comment names, as its parent, the submission or a
    comment the queue hands out before it, [download_submission] returns a
    tree with one node for the submission and one for each of the N
    comments: the node of the comment handed out in place i has identity
    i+1 and the name of the comment, and hangs under a node, created before
    it, that bears the name of its declared parent; the root has depth 0 and
    every other node the depth of its parent plus 1; the children of every
    node are in the order in which the queue handed them out, and the queue
    hands out the top-level comments, then the replies of each comment, in
    the order in which the platform returned them. *)
Theorem C3_reconstruction (E : Env) (submission : Submission.t) (submission_id : string) :
  let order := dequeue_order (Submission.comments submission) in
  replace_more E submission = None ->
  parents_first submission_id order ->
  exists b,
    download_submission E submission submission_id = inr (submission, b)
    /\ tree_size (tree b) = S (List.length order)
    /\ List.NoDup (map NodeRow.id (table b))
    /\ (forall r, In r (table b) ->
          match NodeRow.parent r with
          | None => NodeRow.id r = 0 /\ NodeRow.name r = t3 submission_id /\ NodeRow.depth r = 0
          | Some p =>
              exists rp, In rp (table b) /\ NodeRow.id rp = p
                         /\ NodeRow.depth r = S (NodeRow.depth rp)
          end)
    /\ (forall i c, nth_error order i = Some c ->
          exists r rp, In r (table b) /\ In rp (table b) /\
            NodeRow.id r = S i /\ NodeRow.name r = t1 c /\
            NodeRow.parent r = Some (NodeRow.id rp) /\
            NodeRow.name rp = Comment.parent_id c /\ NodeRow.id rp <= i)
    /\ (forall n d, In (n, d) (preorder 0 (tree b)) ->
          StronglySorted lt (map nid (children n)))
    /\ (exists rest, order = (Submission.comments submission ++ rest)%list)
    /\ (forall c, In c order ->
          exists l1 l2, order = (l1 ++ Comment.replies c ++ l2)%list).
Proof.
  intros order Hrm Hpf.
  destruct (download_ok E submission submission_id Hrm (parents_first_ok _ _ Hpf))
    as (b & Hb & I).
  fold order in I. exists b. split; [exact Hb|].
  assert (Hids : map NodeRow.id (table b) = ids (tree b)) by exact (rows_ids (tree b) None 0).
  assert (Hperm : Permutation (map NodeRow.id (table b)) (seq 0 (fresh b))).
  { rewrite Hids. apply (inv_ids _ _ _ I). }
  split.
  { rewrite tree_size_rows. fold (table b).
    rewrite <- (length_map NodeRow.id), (Permutation_length Hperm), length_seq.
    apply (inv_fresh _ _ _ I). }
  split.
  { eapply Permutation_NoDup; [symmetry; exact Hperm | apply List.seq_NoDup]. }
  split.
  { intros r Hr. destruct (rows_parent _ _ _ _ Hr) as [-> | (rp & Hrp & Hpar & Hd)].
    - simpl. destruct (inv_root _ _ _ I) as [H0 Hn]. auto.
    - rewrite Hpar. exists rp. auto. }
  split.
  { intros i c Hi.
    destruct (inv_nodes _ _ _ I i c Hi) as (r & rp & H1 & H2 & H3 & H4 & H5 & H6 & H7 & _).
    exists r, rp. auto 10. }
  split.
  { intros n d Hn. apply (inv_kids _ _ _ I n d Hn). }
  split; [apply dequeue_prefix|]. intros c Hc. apply dequeue_blocks, Hc.
Qed.

Lemma C3_witness :
  exists b,
    download_submission sample_env nested_thread "s" = inr (nested_thread, b)
    /\ tree_size (tree b) = 5.
Proof.
  destruct (C3_reconstruction sample_env nested_thread "s" eq_refl
              (proj2 (parents_first_iff "s"
                        (dequeue_order (Submission.comments nested_thread))) eq_refl))
    as (b & Hb & Hsize & _).
  exists b. split; [exact Hb | exact Hsize].
Defined.

(** C3, as the specification words it: a declared parent that is somewhere
    in the collection is not enough.  The first comment of
    [late_parent_thread] names the second one, which the queue has not
    handed out yet. *)
Lemma C3_counterexample :
  ~ (forall (E : Env) (submission : Submission.t) (submission_id : string),
       replace_more E submission = None ->
       parents_exist submission_id (dequeue_order (Submission.comments submission)) ->
       exists b,
         download_submission E submission submission_id = inr (submission, b)
         /\ tree_size (tree b)
            = S (List.length (dequeue_order (Submission.comments submission)))).
Proof.
  intros H.
  destruct (H sample_env late_parent_thread "s" eq_refl) as (b & Hb & _).
  - intros c [<- | [<- | []]].
    + right. exists (sample_comment "b" "t3_s" (Some "bob") []).
      split; [right; left; reflexivity | reflexivity].
    + left. reflexivity.
  - discriminate Hb.
Qed.






Lemma dequeue_flat sid cs : Forall (flat sid) cs -> dequeue_order cs = cs.
Proof.
  induction 1 as [|c cs [Hr _] _ IH]; simp dequeue_order; [reflexivity|].
  rewrite Hr, app_nil_r, IH. reflexivity.
Qed.

Lemma flat_no_orphan sid cs : forall known,
  Forall (flat sid) cs -> In (t3 sid) known -> first_orphan known cs = None.
Proof.
  induction cs as [|c cs IH]; intros known Hf Hk; simpl; [reflexivity|].
  apply Forall_cons_1 in Hf as [[_ Hp] Hf]. rewrite Hp.
  rewrite (proj2 (existsb_known _ _) Hk). apply IH; [exact Hf | right; exact Hk].
Qed.

Lemma process_all_flat sid cs : forall st,
  Forall (flat sid) cs ->
  nid (tree st) = 0 -> comments_index st !! t3 sid = Some 0 ->
  exists st', process_all cs st = inr st' /\
    map snd (real_nodes (tree st'))
    = (map snd (real_nodes (tree st)) ++ repeat 1 (List.length cs))%list.
Proof.
  induction cs as [|c cs IH]; intros st Hf Hid Hroot.
  - exists st. simpl. rewrite app_nil_r. split; reflexivity.
  - apply Forall_cons_1 in Hf as [[_ Hp] Hf]. simpl process_all. unfold process.
    rewrite Hp, Hroot. simpl rbind.
    match goal with |- context [process_all cs ?st1] =>
      destruct (IH st1 Hf) as (st' & Hst' & Hd) end.
    + simpl. rewrite attach_id. exact Hid.
    + simpl. rewrite lookup_insert_ne by apply t1_neq_t3. exact Hroot.
    + exists st'. split; [exact Hst'|]. rewrite Hd. simpl tree.
      destruct (tree st) as [i nm ch]. simpl in Hid. subst i. simpl attach.
      unfold real_nodes. simpl. rewrite flat_map_app, map_app, <- app_assoc.
      reflexivity.
Qed.

Lemma total_markers_flat n : Spec.total_markers 1 (repeat 1 n) = n.
Proof. induction n as [|n IH]; simpl; [reflexivity|]. rewrite IH. reflexivity. Qed.

(** C2, on the code.  For a flat thread of N top-level comments without
    replies the loop emits N closing markers, one before every comment, the
    first one included: with three comments that is three markers, and the
    output starts with a closing marker.  The specification asks for two,
    and for none before the first comment. *)
Theorem C2_flat_thread (E : Env) (submission : Submission.t) (submission_id : string) :
  replace_more E submission = None ->
  Forall (flat submission_id) (Submission.comments submission) ->
  exists b v,
    download_submission E submission submission_id = inr (submission, b)
    /\ render_comments E submission_id (tree b) (comments_index b) (comments_forest b)
       = inr v
    /\ count_closing (html_comments v) = List.length (Submission.comments submission)
    /\ (Submission.comments submission <> [] ->
        hd_error (html_comments v) = Some "</div>").
Proof.
  intros Hrm Hflat.
  pose proof (dequeue_flat _ _ Hflat) as Horder.
  assert (Hfo : first_orphan [t3 submission_id]
                  (dequeue_order (Submission.comments submission)) = None).
  { rewrite Horder. apply (flat_no_orphan submission_id); [exact Hflat | left; reflexivity]. }
  destruct (download_ok E submission submission_id Hrm Hfo) as (b & Hb & I).
  destruct (process_all_flat submission_id _ (start submission_id) Hflat
              eq_refl (lookup_singleton_eq _ _)) as (b' & Hb' & Hdepths).
  assert (b' = b) as ->.
  { unfold download_submission in Hb. rewrite Hrm, fill_process_all, Horder, Hb' in Hb.
    simpl in Hb. congruence. }
  simpl in Hdepths.
  destruct (render_comments_inv E _ _ _ I) as (v & Hv & Hhtml & _).
  exists b, v. split; [exact Hb|]. split; [exact Hv|]. split.
  - rewrite Hhtml, count_closing_emit, Hdepths. apply total_markers_flat.
  - intros Hne. rewrite Hhtml.
    destruct (Submission.comments submission) as [|c cs]; [congruence|].
    destruct (real_nodes (tree b)) as [|[n d] rest]; [discriminate Hdepths|].
    simpl in Hdepths. injection Hdepths as -> _. reflexivity.
Qed.

Lemma C2_witness :
  exists b v,
    download_submission sample_env flat_thread "s" = inr (flat_thread, b)
    /\ render_comments sample_env "s" (tree b) (comments_index b) (comments_forest b)
       = inr v
    /\ count_closing (html_comments v) = 3
    /\ hd_error (html_comments v) = Some "</div>".
Proof.
  destruct (C2_flat_thread sample_env flat_thread "s" eq_refl)
    as (b & v & Hb & Hv & Hcount & Hhd).
  - repeat constructor.
  - exists b, v. repeat split; [exact Hb | exact Hv | exact Hcount |].
    apply Hhd. discriminate.
Defined.

(** C9, as the specification words it: the record of a comment whose
    author is null does not carry the null. *)
Lemma C9_counterexample :
  ~ (forall (E : Env) (submission : Submission.t) (submission_id : string)
            (b : built) (c : Comment.t),
       download_submission E submission submission_id = inr (submission, b) ->
       In c (dequeue_order (Submission.comments submission)) ->
       Comment.author c = None ->
       exists en, comments_forest b !! t1 c = Some en /\ Entry.a en = None).
Proof.
  intros H.
  destruct (H sample_env flat_thread "s" (built_of sample_env flat_thread "s")
              (sample_comment "c" "t3_s" None []) eq_refl)
    as (en & Hen & Ha).
  - right. right. left. reflexivity.
  - reflexivity.
  - vm_compute in Hen. injection Hen as <-. discriminate Ha.
Qed.

(** C9. The substitution of "(deleted)" is made when the comments are
    fetched: every record that [download_submission] stores is the record
    of a comment of the thread, with the name of the author, or "(deleted)"
    when the author is null, and the body, or "(deleted)" when the body is
    null, never a null; every comment has such a record; and the renderer
    prints what is stored: the block of a node carries the stored author
    and the conversion of the stored body, and the renderer has no
    substitution of its own (a null author would be printed as "None", a
    null body would raise). *)
Theorem C9_deleted_at_fetch (E : Env) (submission s : Submission.t)
        (submission_id : string) (b : built) :
  download_submission E submission submission_id = inr (s, b) ->
  let order := dequeue_order (Submission.comments submission) in
  (forall c, In c order -> is_Some (comments_forest b !! t1 c))
  /\ (forall k en, comments_forest b !! k = Some en ->
        exists c, In c order /\ k = t1 c
                  /\ Entry.a en = Some (name_or_deleted (Comment.author c))
                  /\ Entry.b en = Some (name_or_deleted (Comment.body c)))
  /\ (forall node, In node (real_nodes (tree b)) ->
        exists c, In c order /\
          pieces E (comments_forest b) node
          = [ opening (classes_of (entry_of c) (snd node)) (name (fst node));
              Str.join [ "<header>"; name_or_deleted (Comment.author c); ", on ";
                         strftime E (config_dateformat E) (Comment.created_utc c);
                         " ("; str_Z (Comment.score c);
                         match Comment.edited c with
                         | NotEdited => ""
                         | EditedAt _ => ", edited"
                         end;
                         ")</header>";
                         comment_parser E (name_or_deleted (Comment.body c)) ] ])
  /\ (forall (forest : gmap string Entry.entry) node v en,
        String.eqb (Str.take 2 (name (fst node))) "t3" = false ->
        forest !! name (fst node) = Some en ->
        match Entry.b en with
        | None => visit E forest node v = inl AttributeError
        | Some body =>
            Entry.a en = None ->
            Str.starts "<header>None, on " (block E en body) = true
        end).
Proof.
  intros H order. apply download_inv in H as (_ & _ & _ & I). fold order in I.
  assert (Hstored : forall c, Entry.a (entry_of c) = Some (name_or_deleted (Comment.author c))
                              /\ Entry.b (entry_of c) = Some (name_or_deleted (Comment.body c))).
  { intros c. simpl. destruct (Comment.author c), (Comment.body c); split; reflexivity. }
  split; [apply (inv_forest_dom _ _ _ I)|]. split.
  { intros k en Hen. destruct (inv_forest _ _ _ I _ _ Hen) as (c & Hc & -> & ->).
    exists c. destruct (Hstored c). auto. }
  split.
  { intros node Hnode.
    pose proof (inv_covered _ _ _ I) as Hcov. rewrite List.Forall_forall in Hcov.
    destruct (Hcov node Hnode) as (_ & en & body & Hen & Hb).
    destruct (inv_forest _ _ _ I _ _ Hen) as (c & Hc & _ & ->).
    exists c. split; [exact Hc|]. unfold pieces. rewrite Hen, Hb.
    destruct (Hstored c) as [Ha Hb']. rewrite Hb' in Hb. injection Hb as <-.
    unfold block. rewrite Ha. reflexivity. }
  intros forest node v en Ht3 Hen. destruct (Entry.b en) as [body|] eqn:Hb.
  - intros Ha. unfold block. rewrite Ha. reflexivity.
  - unfold visit. rewrite Ht3, Hen, Hb. reflexivity.
Qed.

Lemma C9_witness :
  let b := built_of sample_env flat_thread "s" in
  exists en, comments_forest b !! "t1_c" = Some en
             /\ Entry.a en = Some "(deleted)".
Proof.
  intros b.
  destruct (C9_deleted_at_fetch sample_env flat_thread flat_thread "s" b eq_refl)
    as (Hdom & Hstored & _).
  destruct (Hdom (sample_comment "c" "t3_s" None [])) as [en Hen].
  { right. right. left. reflexivity. }
  exists en. split; [exact Hen|].
  destruct (Hstored _ _ Hen) as (c & Hc & Hk & Ha & _).
  destruct Hc as [<- | [<- | [<- | []]]]; try discriminate Hk. exact Ha.
Defined.

(** C10, as stated: a title that holds [<<p>p>] leaves a [<p>] in the
    document, because the removal of the inner marker joins the two halves
    of a new one. *)
Lemma C10_counterexample :
  ~ (forall (E : Env) (submission : Submission.t) (submission_id now_str : string)
            (sort : option string) (b : built) (html : string),
       generate_html E submission submission_id now_str sort
                     (tree b) (comments_index b) (comments_forest b) = inr html ->
       Str.occurs "<p>" html = false /\ Str.occurs "</p>" html = false).
Proof.
  intros H.
  eassert (Hg : generate_html sample_env nested_marker_thread "s" "now" None
              (tree (start "s")) (comments_index (start "s"))
              (comments_forest (start "s")) = inr _).
  { vm_compute. reflexivity. }
  destruct (H _ _ _ _ _ (start "s") _ Hg) as [Hp _].
  vm_compute in Hp. discriminate Hp.
Qed.

(** C10. The document returned is the concatenation of the head, the
    header, the post and the comments from which the occurrences of [<p>],
    then those of [</p>], were removed in one pass each; it holds neither
    marker whenever the concatenation is tidy, that is whenever no [<] in it
    comes right after [<], [<p], [</] or [</p]. *)
Theorem C10_paragraph_markers (E : Env) (submission : Submission.t)
        (submission_id now_str : string) (sort : option string) (tree : Node)
        (comments_index : gmap string nat) (comments_forest : gmap string Entry.entry)
        (v : loop_vars) :
  render_comments E submission_id tree comments_index comments_forest = inr v ->
  let raw := html_total E submission submission_id now_str sort v in
  generate_html E submission submission_id now_str sort tree comments_index comments_forest
  = inr (merge raw)
  /\ (tidy raw = true ->
      Str.occurs "<p>" (merge raw) = false /\ Str.occurs "</p>" (merge raw) = false).
Proof.
  intros Hv raw. split.
  - unfold generate_html. rewrite Hv. reflexivity.
  - clearbody raw. apply merge_clean.
Qed.

Lemma C10_witness :
  let b := built_of sample_env nested_thread "s" in
  exists html,
    generate_html sample_env nested_thread "s" "now" None
                  (tree b) (comments_index b) (comments_forest b) = inr html
    /\ Str.occurs "<p>" html = false /\ Str.occurs "</p>" html = false.
Proof.
  intros b.
  eassert (Hv : render_comments sample_env "s" (tree b) (comments_index b)
                  (comments_forest b) = inr _).
  { vm_compute. reflexivity. }
  pose proof (C10_paragraph_markers sample_env nested_thread "s" "now" None
              (tree b) (comments_index b) (comments_forest b) _ Hv) as H.
  cbv zeta in H.
  destruct H as [Hg Hclean].
  eexists.
  split; [exact Hg|].
  apply Hclean.
  vm_compute. reflexivity.
Defined.

(** * Further properties *)

(** ** The listings *)

Example saved_plain : get_saved_submissions sample_reddit false 1000 = [ "aa"; "cc" ].
Proof. reflexivity. Qed.

Example saved_extended : get_saved_submissions sample_reddit true 1000 = [ "aa"; "bb"; "cc" ].
Proof. reflexivity. Qed.

Example posted_extended :
  get_posted_submissions sample_reddit None true 1000 = [ "cc"; "bb"; "aa"; "aa" ].
Proof. reflexivity. Qed.

Lemma saved_ids_sublist items : sublist (saved_ids false items) (saved_ids true items).
Proof.
  induction items as [|item items IH]; cbn [saved_ids]; [constructor|].
  destruct (String.eqb (Str.take 2 (Item.name item)) "t3").
  - constructor. exact IH.
  - rewrite andb_false_r, andb_true_r.
    destruct (String.eqb (Str.take 2 (Item.name item)) "t1").
    + constructor. exact IH.
    + exact IH.
Qed.

Lemma saved_ids_length extended items :
  List.length (saved_ids extended items) <= List.length items.
Proof.
  induction items as [|item items IH]; cbn [saved_ids List.length]; [lia|].
  destruct (String.eqb (Str.take 2 (Item.name item)) "t3"); cbn [List.length]; [lia|].
  destruct (String.eqb (Str.take 2 (Item.name item)) "t1" && extended);
    cbn [List.length]; lia.
Qed.

Lemma saved_ids_origin extended items id :
  In id (saved_ids extended items) ->
  exists item, In item items /\
    (is_t3 item = true /\ id = Item.id item
     \/ extended = true /\ Str.take 2 (Item.name item) = "t1"
        /\ id = Str.drop 3 (Item.link_id item)).
Proof.
  induction items as [|item items IH]; cbn [saved_ids]; [intros []|].
  destruct (String.eqb (Str.take 2 (Item.name item)) "t3") eqn:H3.
  - intros [<- | Hin].
    + exists item. split; [left; reflexivity|]. left. split; [exact H3 | reflexivity].
    + destruct (IH Hin) as (it & Hit & Hor). exists it. split; [right; exact Hit | exact Hor].
  - destruct (String.eqb (Str.take 2 (Item.name item)) "t1") eqn:H1; cbn [andb];
      [destruct extended|].
    + intros [<- | Hin].
      * exists item. split; [left; reflexivity|]. right.
        apply String.eqb_eq in H1. auto.
      * destruct (IH Hin) as (it & Hit & Hor). exists it. split; [right; exact Hit | exact Hor].
    + intros Hin. destruct (IH Hin) as (it & Hit & Hor).
      exists it. split; [right; exact Hit | exact Hor].
    + intros Hin. destruct (IH Hin) as (it & Hit & Hor).
      exists it. split; [right; exact Hit | exact Hor].
Qed.

(** X1. [get_saved_submissions]: what is returned without [extended] is
    what is returned with it, less the threads of the saved comments, in
    the same order; no call returns more identifiers than the listing has
    items; every identifier returned is the one of a saved submission or,
    with [extended], the thread of a saved comment, its [t3_] prefix cut. *)
Theorem saved_submissions_extended (reddit : Reddit) (limit : nat) :
  sublist (get_saved_submissions reddit false limit)
          (get_saved_submissions reddit true limit)
  /\ (forall extended,
        List.length (get_saved_submissions reddit extended limit)
        <= List.length (User.saved (me reddit) limit))
  /\ (forall extended id,
        In id (get_saved_submissions reddit extended limit) ->
        exists item, In item (User.saved (me reddit) limit) /\
          (is_t3 item = true /\ id = Item.id item
           \/ extended = true /\ Str.take 2 (Item.name item) = "t1"
              /\ id = Str.drop 3 (Item.link_id item))).
Proof.
  unfold get_saved_submissions. split; [apply saved_ids_sublist|].
  split; [intros; apply saved_ids_length | intros; eapply saved_ids_origin; eassumption].
Qed.

Lemma saved_submissions_extended_witness :
  exists item, In item (User.saved (me sample_reddit) 1000) /\
    (is_t3 item = true /\ "bb" = Item.id item
     \/ true = true /\ Str.take 2 (Item.name item) = "t1"
        /\ "bb" = Str.drop 3 (Item.link_id item)).
Proof.
  apply (proj2 (proj2 (saved_submissions_extended sample_reddit 1000)) true "bb").
  simpl. tauto.
Defined.

Lemma upvoted_ids_filter items :
  upvoted_ids items = map Item.id (List.filter is_t3 items).
Proof.
  induction items as [|item items IH]; cbn [upvoted_ids List.filter]; [reflexivity|].
  change (is_t3 item) with (String.eqb (Str.take 2 (Item.name item)) "t3").
  destruct (String.eqb (Str.take 2 (Item.name item)) "t3"); cbn [map];
    rewrite IH; reflexivity.
Qed.

(** X2. [get_upvoted_submissions] returns what [get_saved_submissions]
    would return for the same listing without [extended]: an upvoted comment
    never contributes, and an identifier is returned exactly when an item of
    the listing whose name begins with [t3] carries it. *)
Theorem upvoted_submissions_only (reddit : Reddit) (limit : nat) :
  get_upvoted_submissions reddit limit
  = saved_ids false (User.upvoted (me reddit) limit)
  /\ (forall id,
        In id (get_upvoted_submissions reddit limit) <->
        exists item, In item (User.upvoted (me reddit) limit)
                     /\ is_t3 item = true /\ Item.id item = id).
Proof.
  unfold get_upvoted_submissions. split.
  - induction (User.upvoted (me reddit) limit) as [|item items IH];
      cbn [upvoted_ids saved_ids]; [reflexivity|].
    rewrite andb_false_r. destruct (String.eqb _ "t3"); congruence.
  - intros id. rewrite upvoted_ids_filter, in_map_iff. split.
    + intros (item & <- & Hin). apply filter_In in Hin as [Hin Ht]. eauto.
    + intros (item & Hin & Ht & <-). exists item. split; [reflexivity|].
      apply filter_In. auto.
Qed.

Lemma upvoted_submissions_only_witness :
  In "aa" (get_upvoted_submissions sample_reddit 1000).
Proof.
  apply (proj2 (proj2 (upvoted_submissions_only sample_reddit 1000) "aa")).
  exists (sample_item "t3_aa" "aa" "" 5). simpl. tauto.
Defined.

Lemma insert_newest_perm x l : Permutation (insert_newest x l) (x :: l).
Proof.
  induction l as [|y r IH]; simpl; [reflexivity|].
  destruct (snd x <? snd y)%Z; [|reflexivity].
  rewrite IH. apply perm_swap.
Qed.

Lemma sort_newest_perm l : Permutation (sort_newest l) l.
Proof.
  induction l as [|x l IH]; simpl; [reflexivity|].
  rewrite insert_newest_perm, IH. reflexivity.
Qed.

Lemma insert_newest_sorted x l :
  StronglySorted not_older l -> StronglySorted not_older (insert_newest x l).
Proof.
  induction 1 as [|y r Hs IH Hy]; simpl; [repeat constructor|].
  destruct (snd x <? snd y)%Z eqn:Hlt.
  - constructor; [exact IH|].
    apply List.Forall_forall. intros z Hz.
    apply (Permutation_in _ (insert_newest_perm x r)) in Hz as [<- | Hz].
    + unfold not_older. lia.
    + rewrite List.Forall_forall in Hy. apply Hy, Hz.
  - constructor; [constructor; assumption|].
    constructor; [unfold not_older; lia|].
    eapply List.Forall_impl; [|exact Hy]. unfold not_older. intros z Hz. lia.
Qed.

Lemma sort_newest_sorted l : StronglySorted not_older (sort_newest l).
Proof.
  induction l as [|x l IH]; simpl; [constructor | apply insert_newest_sorted, IH].
Qed.

(** the sort moves nothing in a list that is already newest first: entries
    of the same time keep their order *)
Lemma sort_newest_sorted_id l : StronglySorted not_older l -> sort_newest l = l.
Proof.
  induction 1 as [|x l Hs IH Hx]; simpl; [reflexivity|]. rewrite IH.
  destruct l as [|y r]; [reflexivity|]. simpl.
  apply Forall_cons_1 in Hx as [Hy _]. unfold not_older in Hy.
  destruct (snd x <? snd y)%Z eqn:Hlt; [lia | reflexivity].
Qed.

Lemma sorted_app_split {A} (R : A -> A -> Prop) l1 l2 :
  StronglySorted R (l1 ++ l2) ->
  StronglySorted R l1 /\ forall x y, In x l1 -> In y l2 -> R x y.
Proof.
  induction l1 as [|a l1 IH]; simpl; intros H.
  - split; [constructor | intros x y []].
  - apply StronglySorted_inv in H as [H Ha]. destruct (IH H) as [Hs Hcross].
    split.
    + constructor; [exact Hs|]. apply Forall_app in Ha as [Ha _]. exact Ha.
    + intros x y [<- | Hx] Hy; [|apply Hcross; assumption].
      rewrite List.Forall_forall in Ha. apply Ha, in_or_app. right. exact Hy.
Qed.

(** X3. [get_posted_submissions] with [extended]: the submissions and the
    comments of the user, asked for with twice the limit, are put together
    and sorted newest first, and the threads of the first ten entries are
    returned, whatever [limit] is: at most ten identifiers, as many as there
    are entries when there are fewer; the entries kept are newest first and
    none of those left out is newer than one that is kept. *)
Theorem posted_submissions_newest_ten (reddit : Reddit) (author : option string)
        (limit : nat) :
  let user := match author with None => me reddit | Some a => redditor reddit a end in
  let entries := posted_entries user limit in
  exists kept dropped,
    get_posted_submissions reddit author true limit = map fst kept
    /\ Permutation (kept ++ dropped) entries
    /\ List.length kept = Nat.min 10 (List.length entries)
    /\ StronglySorted not_older kept
    /\ (forall x y, In x kept -> In y dropped -> (snd y <= snd x)%Z)
    /\ (StronglySorted not_older entries -> kept = firstn 10 entries).
Proof.
  intros user entries.
  exists (firstn 10 (sort_newest entries)), (skipn 10 (sort_newest entries)).
  split; [reflexivity|]. split; [rewrite firstn_skipn; apply sort_newest_perm|].
  split.
  { rewrite length_firstn, (Permutation_length (sort_newest_perm entries)). reflexivity. }
  pose proof (sort_newest_sorted entries) as Hs.
  rewrite <- (firstn_skipn 10 (sort_newest entries)) in Hs.
  apply sorted_app_split in Hs as [Hk Hcross].
  split; [exact Hk|]. split; [exact Hcross|].
  intros Hsorted. rewrite sort_newest_sorted_id by exact Hsorted. reflexivity.
Qed.

Lemma posted_submissions_newest_ten_witness :
  get_posted_submissions sample_reddit (Some "someone") true 1 = [ "cc"; "aa"; "aa"; "bb" ].
Proof.
  destruct (posted_submissions_newest_ten sample_reddit (Some "someone") 1)
    as (kept & dropped & Hids & _ & _ & _ & _ & Hid).
  rewrite Hids, Hid; [reflexivity|].
  repeat constructor; unfold not_older; simpl; lia.
Defined.

(** ** [write_file] *)

Example split_permalink :
  split "/" "/r/test/comments/s/hello/" = [ ""; "r"; "test"; "comments"; "s"; "hello"; "" ].
Proof. reflexivity. Qed.

Example split_nothing : split "/" "" = [ "" ].
Proof. reflexivity. Qed.

Lemma split_cons sep s : exists piece pieces, split sep s = piece :: pieces.
Proof.
  induction s as [|c r IH]; simpl; [eauto|].
  destruct (Ascii.eqb c sep); [eauto|]. destruct IH as (p & ps & ->). eauto.
Qed.

(** [sep.join(s.split(sep))] is [s] *)
Lemma concat_split sep s : String.concat (String sep "") (split sep s) = s.
Proof.
  induction s as [|c r IH]; [reflexivity|]. simpl split.
  destruct (Ascii.eqb_spec c sep) as [->|Hne].
  - destruct (split_cons sep r) as (p & ps & Heq). rewrite Heq in *.
    simpl. simpl in IH. rewrite IH. reflexivity.
  - destruct (split_cons sep r) as (p & ps & Heq). rewrite Heq in *.
    destruct ps; simpl in *; rewrite <- IH; reflexivity.
Qed.

Lemma split_app sep s t :
  split sep (s ++ String sep t) = (split sep s ++ split sep t)%list.
Proof.
  induction s as [|c r IH]; simpl.
  - rewrite Ascii.eqb_refl. reflexivity.
  - destruct (Ascii.eqb c sep); [rewrite IH; reflexivity|].
    rewrite IH. destruct (split_cons sep r) as (p & ps & ->). reflexivity.
Qed.

Lemma split_plain sep s : has_char sep s = false -> split sep s = [ s ].
Proof.
  induction s as [|c r IH]; simpl; [reflexivity|].
  intros H. apply orb_false_elim in H as [Hc Hr]. rewrite Hc, (IH Hr). reflexivity.
Qed.

Lemma split_pieces_plain sep s :
  Forall (fun piece => has_char sep piece = false) (split sep s).
Proof.
  induction s as [|c r IH]; simpl; [repeat constructor|].
  destruct (Ascii.eqb c sep) eqn:Hc; [constructor; [reflexivity | exact IH]|].
  destruct (split sep r) as [|p ps]; [repeat constructor; simpl; rewrite Hc; reflexivity|].
  apply Forall_cons_1 in IH as [Hp Hps]. constructor; [|exact Hps].
  simpl. rewrite Hc, Hp. reflexivity.
Qed.

Lemma has_char_take c n : forall s, has_char c s = false -> has_char c (Str.take n s) = false.
Proof.
  induction n as [|n IH]; intros [|x r]; simpl; try reflexivity.
  intros H. apply orb_false_elim in H as [Hx Hr]. rewrite Hx. apply IH, Hr.
Qed.

Lemma length_take_le n : forall s, String.length (Str.take n s) <= n.
Proof.
  induction n as [|n IH]; intros [|x r]; simpl; try lia. specialize (IH r). lia.
Qed.

Lemma from_end_in {A} k (l : list A) x : from_end k l = Some x -> In x l.
Proof.
  unfold from_end. destruct (List.length l <? k)%nat; [discriminate|].
  apply nth_error_In.
Qed.

Lemma from_end_snoc2 {A} (l : list A) x y : from_end 2 (l ++ [x; y]) = Some x.
Proof.
  unfold from_end. rewrite length_app. simpl.
  destruct (List.length l + 2 <? 2)%nat eqn:H; [apply Nat.ltb_lt in H; lia|].
  rewrite nth_error_app2 by lia.
  replace (List.length l + 2 - 2 - List.length l) with 0 by lia. reflexivity.
Qed.

Lemma sanitized_name_bound (submission : Submission.t) (sanitized : string) :
  sanitized_name submission = inr sanitized ->
  String.length sanitized <= 150 /\ has_char "/" sanitized = false.
Proof.
  unfold sanitized_name. intros H.
  destruct (from_end 2 _) as [piece|] eqn:Hp; [|discriminate].
  apply from_end_in in Hp.
  pose proof (split_pieces_plain "/" (Submission.permalink submission)) as Hplain.
  rewrite List.Forall_forall in Hplain. specialize (Hplain _ Hp).
  revert H. generalize 150 at 1 2 3. intros lim H.
  assert (Hs : sanitized = if (lim <? String.length piece)%nat
                           then Str.take lim piece else piece) by congruence.
  subst sanitized. clear H.
  destruct (lim <? String.length piece)%nat eqn:Hlen.
  - split; [apply length_take_le | apply has_char_take, Hplain].
  - apply Nat.ltb_ge in Hlen. split; assumption.
Qed.

Lemma sanitized_name_fails (submission : Submission.t) :
  sanitized_name submission = inl (OtherError "IndexError")
  <-> has_char "/" (Submission.permalink submission) = false.
Proof.
  unfold sanitized_name, from_end. split.
  - intros H. destruct (List.length _ <? 2)%nat eqn:Hlen.
    + apply Nat.ltb_lt in Hlen. clear H.
      induction (Submission.permalink submission) as [|c r IH]; [reflexivity|].
      cbn [split has_char] in *. destruct (Ascii.eqb c "/") eqn:Hc.
      * destruct (split_cons "/" r) as (p & ps & Heq). rewrite Heq in Hlen.
        simpl in Hlen. lia.
      * cbn [orb]. apply IH. destruct (split_cons "/" r) as (p & ps & Heq).
        rewrite Heq in *. exact Hlen.
    + apply Nat.ltb_ge in Hlen.
      destruct (nth_error _ _) eqn:Hn; [discriminate|].
      apply nth_error_None in Hn. lia.
  - intros Hplain. rewrite (split_plain _ _ Hplain). reflexivity.
Qed.

(** X4. The name [write_file] takes from the permalink is the piece
    before the last [/]: it has no [/] and at most 150 characters; for a
    permalink that ends in [/slug/] it is the slug, cut to 150 characters;
    and the lookup fails (with [IndexError]) exactly when the permalink has
    no [/] at all. *)
Theorem sanitized_name_slug (submission : Submission.t) :
  (forall sanitized,
     sanitized_name submission = inr sanitized ->
     String.length sanitized <= 150 /\ has_char "/" sanitized = false)
  /\ (forall front slug,
        Submission.permalink submission = front ++ "/" ++ slug ++ "/" ->
        has_char "/" slug = false ->
        sanitized_name submission = inr (Str.take 150 slug))
  /\ (sanitized_name submission = inl (OtherError "IndexError")
      <-> has_char "/" (Submission.permalink submission) = false).
Proof.
  split; [apply sanitized_name_bound|]. split; [|apply sanitized_name_fails].
  unfold sanitized_name. intros front slug Hperm Hslug. rewrite Hperm.
  change (front ++ "/" ++ slug ++ "/") with (front ++ String "/" (slug ++ String "/" "")).
  rewrite !split_app, (split_plain _ _ Hslug). cbn [split app].
  rewrite from_end_snoc2. generalize 150. intros lim.
  destruct (lim <? String.length slug)%nat eqn:Hlen; [reflexivity|].
  apply Nat.ltb_ge in Hlen. f_equal. clear Hslug Hperm. revert lim Hlen.
  induction slug as [|c r IH]; intros [|n] H; simpl in *; try reflexivity; try lia.
  f_equal. apply IH. lia.
Qed.

Lemma sanitized_name_slug_witness :
  sanitized_name (sample_submission "Hello" []) = inr "hello".
Proof.
  apply (proj1 (proj2 (sanitized_name_slug (sample_submission "Hello" [])))
           "/r/test/comments/s" "hello"); reflexivity.
Defined.

Lemma length_append (a b : string) :
  String.length (a ++ b) = String.length a + String.length b.
Proof. induction a as [|c a IH]; simpl; [reflexivity | rewrite IH; reflexivity]. Qed.



(** ** [comment_parser] *)

Lemma has_char_app c a b : has_char c (a ++ b) = has_char c a || has_char c b.
Proof.
  induction a as [|x a IH]; simpl; [reflexivity|]. rewrite IH, orb_assoc. reflexivity.
Qed.

Lemma has_char_drop c k : forall s, has_char c s = false -> has_char c (Str.drop k s) = false.
Proof.
  induction k as [|k IH]; intros [|x r] H; simpl; try exact H; try reflexivity.
  simpl in H. apply orb_false_elim in H as [_ Hr]. apply IH, Hr.
Qed.

(** a replacement brings in no character that is neither in the text nor
    in what is put in *)
Lemma has_char_replace c old new :
  has_char c new = false ->
  forall n s, String.length s <= n ->
  has_char c s = false -> has_char c (Str.replace old new s) = false.
Proof.
  intros Hnew. induction n as [|n IH]; intros s Hn Hs.
  { destruct s; [reflexivity | simpl in Hn; lia]. }
  destruct s as [|x r]; [reflexivity|]. simpl in Hn, Hs.
  apply orb_false_elim in Hs as [Hx Hr].
  destruct (Str.starts old (String x r)) eqn:Hm.
  - rewrite replace_match by exact Hm. rewrite has_char_app, Hnew. simpl.
    apply IH; [|apply has_char_drop, Hr].
    pose proof (length_drop_le (String.length old - 1) r). lia.
  - rewrite replace_nomatch by exact Hm. simpl. rewrite Hx. simpl.
    apply IH; [lia | exact Hr].
Qed.

(** replacing a character by a text without it leaves none *)
Lemma has_char_replaced c new s :
  has_char c new = false -> has_char c (Str.replace (String c "") new s) = false.
Proof.
  intros Hnew. induction s as [|x r IH]; [reflexivity|].
  destruct (Ascii.eqb c x) eqn:Hcx.
  - rewrite replace_match by (simpl; rewrite Hcx; reflexivity).
    rewrite has_char_app, Hnew. simpl. exact IH.
  - rewrite replace_nomatch by (simpl; rewrite Hcx; reflexivity).
    simpl. rewrite Ascii.eqb_sym, Hcx. exact IH.
Qed.

(** X6. [comment_parser] hands to the markdown conversion a text without
    [<] and without [>]: two conversions that agree on such texts give the
    same result on every input. *)
Theorem comment_parser_escapes (E1 E2 : Env) (initial_text : string) :
  (forall text, has_char "<" text = false -> has_char ">" text = false ->
                markdown E1 text = markdown E2 text) ->
  comment_parser E1 initial_text = comment_parser E2 initial_text.
Proof.
  intros H. unfold comment_parser.
  rewrite (H (Str.replace ">" "&gt;" (Str.replace "<" "&lt;" initial_text)));
    [reflexivity | |].
  - apply (has_char_replace "<" ">" "&gt;" eq_refl _ _ (le_n _)).
    apply has_char_replaced. reflexivity.
  - apply has_char_replaced. reflexivity.
Qed.

Lemma comment_parser_escapes_witness :
  comment_parser sample_env "if a < b then <b>" = comment_parser picky_env "if a < b then <b>".
Proof.
  apply comment_parser_escapes. intros text H1 H2.
  simpl. rewrite H1, H2. reflexivity.
Defined.

(** X7. The result of [comment_parser] holds no line feed, whatever the
    markdown conversion returns: every line feed has become a paragraph
    break or [<br>]. *)
Theorem comment_parser_no_newline (E : Env) (initial_text : string) :
  has_char "010" (comment_parser E initial_text) = false.
Proof.
  unfold comment_parser.
  set (text := Str.replace nl "<br>" _).
  assert (Htext : has_char "010" text = false)
    by (apply has_char_replaced; reflexivity).
  destruct (String.eqb (Str.last_n 4 text) "<br>"); [|exact Htext].
  apply has_char_take, Htext.
Qed.

(** ** More on [extract_id] *)

Lemma append_assoc (a b c : string) : (a ++ b) ++ c = a ++ (b ++ c).
Proof.
  induction a as [|x a IH]; [reflexivity|].
  change (String x ((a ++ b) ++ c) = String x (a ++ b ++ c)). rewrite IH. reflexivity.
Qed.

Lemma append_empty_r (a : string) : a ++ "" = a.
Proof.
  induction a as [|x a IH]; [reflexivity|].
  change (String x (a ++ "") = String x a). rewrite IH. reflexivity.
Qed.

Lemma starts_app w b : Str.starts w (w ++ b) = true.
Proof.
  induction w as [|x w IH]; simpl; [reflexivity|]. rewrite Ascii.eqb_refl. exact IH.
Qed.

Lemma occurs_app_intro w a b : Str.occurs w (a ++ w ++ b) = true.
Proof.
  induction a as [|x a IH].
  - simpl append. destruct (w ++ b) eqn:Heq; simpl.
    + destruct w; [reflexivity | discriminate].
    + rewrite <- Heq. change (Str.starts w (w ++ b) || Str.occurs w s = true).
      rewrite starts_app. reflexivity.
  - change (Str.starts w (String x (a ++ w ++ b)) || Str.occurs w (a ++ w ++ b) = true).
    rewrite IH. apply orb_true_r.
Qed.

(** a pattern without a group hands on a suffix of its input *)
Lemma no_group_suffix {A} r : no_group r ->
  forall off s cap (k : @Re.cont A) x,
  Re.rmatch r off s cap k = Some x ->
  exists off' s' front, s = front ++ s' /\ k off' s' cap = Some x.
Proof.
  induction r as [| | |c|p|r1 IH1 r2 IH2|r1 IH1 r2 IH2|r1 IH1|r1 IH1];
    simpl; intros Hg off s cap k x H.
  - exists off, s, "". auto.
  - destruct (Nat.eqb off 0); [|discriminate]. exists off, s, "". auto.
  - destruct (Re.at_eos s); [|discriminate]. exists off, s, "". auto.
  - destruct s as [|c' s']; [discriminate|].
    destruct (Ascii.eqb c c'); [|discriminate]. exists (S off), s', (String c' ""). auto.
  - apply plus_inv in H as (w & rest & -> & _ & _ & Hk). eauto.
  - destruct Hg as [Hg1 Hg2].
    apply (IH1 Hg1) in H as (off1 & s1 & f1 & -> & H).
    apply (IH2 Hg2) in H as (off2 & s2 & f2 & -> & H).
    exists off2, s2, (f1 ++ f2). rewrite append_assoc. auto.
  - destruct Hg as [Hg1 Hg2]. destruct (Re.rmatch r1 off s cap k) eqn:H1.
    + injection H as <-. apply (IH1 Hg1) in H1. exact H1.
    + apply (IH2 Hg2) in H. exact H.
  - destruct (Re.rmatch r1 off s cap k) eqn:H1.
    + injection H as <-. apply (IH1 Hg) in H1. exact H1.
    + exists off, s, "". auto.
  - contradiction.
Qed.

Lemma seq_group_inside p pre post :
  Forall no_group pre -> Forall no_group post ->
  forall off s cap m,
  Re.rmatch (Re.seq (pre ++ Re.Group (Re.Plus1 p) :: post)) off s cap
            (fun _ _ c => Some c) = Some m ->
  exists id front back, m = Some id /\ s = front ++ id ++ back.
Proof.
  intros Hpre Hpost. induction Hpre as [|r pre Hr _ IH]; intros off s cap m H.
  - simpl in H. apply plus_inv in H as (w & rest & -> & Hne & Hall & H).
    apply (no_group_cap _ (no_group_seq _ Hpost)) in H as (off' & s' & H).
    injection H as <-. rewrite add_sub_l, take_app_length.
    exists w, "", rest. auto.
  - simpl in H. apply (no_group_suffix _ Hr) in H as (off' & s' & front & -> & H).
    apply IH in H as (id & f & b & -> & ->).
    exists id, (front ++ f), b. rewrite append_assoc. auto.
Qed.

Lemma search_captures_inside r url m :
  In r regexes -> Re.search r url = Some m ->
  exists id, m = Some id /\ Str.occurs id url = true.
Proof.
  intros Hr H.
  assert (Htail : Forall no_group [Re.Opt (Re.Lit "/"); Re.Eos])
    by (repeat constructor).
  assert (Hin : exists id front back, m = Some id /\ url = front ++ id ++ back).
  { destruct Hr as [<- | [<- | [<- | []]]].
    - unfold regex_bare in H. simpl Re.seq in H. rewrite search_bos in H.
      apply (seq_group_inside id_char [Re.Bos] _ ltac:(repeat constructor) Htail) in H.
      exact H.
    - unfold regex_short in H. simpl Re.seq in H. rewrite search_bos in H.
      apply (seq_group_inside id_char (Re.Bos :: reddit_host) _
               ltac:(constructor; [exact I | apply no_group_host]) Htail) in H.
      exact H.
    - unfold regex_full in H. simpl Re.seq in H. rewrite search_bos in H.
      apply (seq_group_inside id_char
               (Re.Bos :: reddit_host
                  ++ [Re.word "r/"; Re.Plus1 sub_char; Re.word "/comments/"])%list
               [Re.Opt (Re.Lit "/")]) in H; [exact H | | repeat constructor].
      constructor; [exact I|]. apply Forall_app. split; [apply no_group_host|].
      repeat constructor; apply no_group_word. }
  destruct Hin as (id & front & back & -> & ->).
  exists id. split; [reflexivity | apply occurs_app_intro].
Qed.

Lemma extract_id_from url id :
  extract_id url = Some id ->
  exists r m, In r regexes /\ Re.search r url = Some m /\ m = Some id.
Proof.
  unfold extract_id, regexes. simpl first_match. intros H.
  destruct (Re.search regex_bare url) as [m1|] eqn:H1.
  { exists regex_bare, m1. simpl. tauto. }
  destruct (Re.search regex_short url) as [m2|] eqn:H2.
  { exists regex_short, m2. simpl. tauto. }
  destruct (Re.search regex_full url) as [m3|] eqn:H3; [|discriminate].
  exists regex_full, m3. simpl. tauto.
Qed.

(** X8. What [extract_id] returns is written in the reference: it is a
    non-empty run of lower-case letters and digits that occurs in the
    input, and it is itself a reference to the same thread, so that
    extracting twice changes nothing. *)
Theorem extract_id_round_trip (url id : string) :
  extract_id url = Some id ->
  is_id id /\ Str.occurs id url = true /\ extract_id id = Some id.
Proof.
  intros H. apply extract_id_from in H as (r & m & Hr & Hs & ->).
  destruct (search_captures_id r url _ Hr Hs) as (id1 & Heq1 & Hid).
  destruct (search_captures_inside r url _ Hr Hs) as (id2 & Heq2 & Hocc).
  injection Heq1 as <-. injection Heq2 as <-.
  split; [exact Hid|]. split; [exact Hocc|].
  rewrite <- (append_empty_r id) at 1.
  apply extract_id_shape, shape_bare; [exact Hid | left; reflexivity].
Qed.

Lemma extract_id_round_trip_witness :
  Str.occurs "abc123" "http://www.reddit.com/r/Ask_Me-9/comments/abc123/some_title/" = true
  /\ extract_id "abc123" = Some "abc123".
Proof.
  destruct (extract_id_round_trip
              "http://www.reddit.com/r/Ask_Me-9/comments/abc123/some_title/" "abc123"
              eq_refl) as (_ & Hocc & Hid).
  split; assumption.
Defined.

(** ** The queue of [download_submission] *)


Lemma flatten_app (a b : list Comment.t) : flatten (a ++ b) = (flatten a ++ flatten b)%list.
Proof. unfold flatten. apply flat_map_app. Qed.

Lemma dequeue_flatten (q : list Comment.t) : Permutation (dequeue_order q) (flatten q).
Proof.
  funelim (dequeue_order q); [constructor|].
  rewrite H, flatten_app. unfold flatten at 3. cbn [flat_map].
  destruct comment as [i p a b d e l o s t rs]. cbn [flatten_comment Comment.replies app].
  constructor. fold (flatten rs). fold (flatten rest). apply Permutation_app_comm.
Qed.



(** ** The command line *)

Lemma appends_ret {A} (x : A) : appends (ret x).
Proof. intros out. exists []. simpl. rewrite app_nil_r. reflexivity. Qed.

Lemma appends_raise {A} (e : exn) : appends (@raise A e).
Proof. intros out. exists []. simpl. rewrite app_nil_r. reflexivity. Qed.

Lemma appends_lift {A} (r : result A) : appends (lift r).
Proof. intros out. exists []. simpl. rewrite app_nil_r. reflexivity. Qed.

Lemma appends_myprint message color stderr : appends (myprint message color stderr).
Proof. intros out. eexists. reflexivity. Qed.

Lemma appends_bind {A B} (m : IO A) (f : A -> IO B) :
  appends m -> (forall x, appends (f x)) -> appends (bind m f).
Proof.
  intros Hm Hf out. unfold bind. destruct (Hm out) as (a1 & H1).
  destruct (m out) as [out1 [e | x]]; simpl in H1; subst out1.
  - exists a1. reflexivity.
  - destruct (Hf x (out ++ a1)%list) as (a2 & H2). exists (a1 ++ a2)%list.
    rewrite H2, app_assoc. reflexivity.
Qed.

Lemma appends_try_except {A} (body : IO A) catches handler :
  appends body -> (forall e, appends (handler e)) -> appends (try_except body catches handler).
Proof.
  intros Hm Hf out. unfold try_except. destruct (Hm out) as (a1 & H1).
  destruct (body out) as [out1 [e | x]]; simpl in H1; subst out1.
  - destruct (catches e); [|exists a1; reflexivity].
    destruct (Hf e (out ++ a1)%list) as (a2 & H2). exists (a1 ++ a2)%list.
    rewrite H2, app_assoc. reflexivity.
  - exists a1. reflexivity.
Qed.

Lemma appends_fetch E submission_id : appends (fetch E submission_id).
Proof.
  intros out. unfold fetch, try_body.
  destruct (get_submission E submission_id) as [e | [submission nb_replies]].
  - destruct e; eexists; simpl; try reflexivity; rewrite app_nil_r; reflexivity.
  - destruct (download_submission E submission submission_id) as [e | [s b]].
    + destruct e; eexists; simpl; try (rewrite <- app_assoc; reflexivity); reflexivity.
    + eexists. simpl. rewrite <- app_assoc. reflexivity.
Qed.

Create HintDb appends.

#[local] Hint Resolve appends_ret appends_raise appends_lift appends_myprint
  appends_fetch : appends.

Ltac appends :=
  repeat first
    [ solve [auto with appends]
    | apply appends_bind; [|intros ?]
    | apply appends_try_except; [|intros ?] ].

Lemma appends_scrape_url E url : appends (scrape_url E url).
Proof.
  unfold scrape_url, generate. destruct (extract_id url); appends.
Qed.

Lemma appends_save E html submission : appends (save E html submission).
Proof. unfold save. appends. destruct (is_PermissionError _); appends. Qed.

Lemma appends_main E url : appends (main E url).
Proof.
  pose proof (appends_scrape_url E url). pose proof (appends_save E).
  unfold main. appends.
Qed.

(** X10. A reference that [extract_id] rejects: [main] writes one line, the
    complaint about the reference, on the error stream, and ends with
    [SystemExit(1)], which its general handler lets through; the platform
    is not asked anything, so the run is the same in every environment. *)
Theorem main_rejects_reference (E : Env) (url : string) (out : list line) :
  extract_id url = None ->
  main E url out = ((out ++ [failure (msg_incorrect url)])%list, inl (SystemExit 1))
  /\ forall E', main E' url out = main E url out.
Proof.
  intros H.
  assert (Hrun : forall E0, main E0 url out
                 = ((out ++ [failure (msg_incorrect url)])%list, inl (SystemExit 1))).
  { intros E0. unfold main, try_except, bind, scrape_url. rewrite H. reflexivity. }
  split; [apply Hrun|]. intros E'. rewrite !Hrun. reflexivity.
Qed.

Lemma main_rejects_reference_witness :
  main sample_env "https://example.com/r/x" []
  = ([failure (msg_incorrect "https://example.com/r/x")], inl (SystemExit 1)).
Proof.
  apply (main_rejects_reference sample_env "https://example.com/r/x" []). reflexivity.
Defined.

Lemma scrape_url_run (E : Env) (url submission_id : string) (out : list line)
      (html : string) (submission : Submission.t) (b : built) :
  extract_id url = Some submission_id ->
  reddit_submission E submission_id = inr submission ->
  download_submission E submission submission_id = inr (submission, b) ->
  generate_html E submission submission_id (global_now_str E) None
                (tree b) (comments_index b) (comments_forest b) = inr html ->
  scrape_url E url out
  = ((out ++ download_lines submission_id submission)%list, inr (html, submission)).
Proof.
  intros Hid Hget Hdl Hgen.
  unfold scrape_url. rewrite Hid.
  unfold bind, fetch, try_body, get_submission. rewrite Hget. cbn [rbind]. rewrite Hdl.
  cbv beta iota delta [bind myprint ret generate try_except lift read rbind
                       Frame.submission Frame.downloaded].
  rewrite Hgen. rewrite <- app_assoc. reflexivity.
Qed.

(** X11. [scrape_url] returns exactly when the reference is accepted, the
    submission is fetched, the download goes through and the document is
    generated; it has then written the two lines of the download and
    nothing else, and what it returns is the document generated from what
    was downloaded, with the submission as fetched. *)
Theorem scrape_url_returns (E : Env) (url : string) (out out' : list line)
        (html : string) (submission : Submission.t) :
  scrape_url E url out = (out', inr (html, submission))
  <-> exists submission_id b,
        extract_id url = Some submission_id
        /\ reddit_submission E submission_id = inr submission
        /\ download_submission E submission submission_id = inr (submission, b)
        /\ generate_html E submission submission_id (global_now_str E) None
                         (tree b) (comments_index b) (comments_forest b) = inr html
        /\ out' = (out ++ download_lines submission_id submission)%list.
Proof.
  split.
  - unfold scrape_url. destruct (extract_id url) as [submission_id|]; [|discriminate].
    unfold bind, fetch, try_body, get_submission.
    destruct (reddit_submission E submission_id) as [e | s] eqn:Hget.
    { destruct e; simpl; discriminate. }
    cbn [rbind].
    destruct (download_submission E s submission_id) as [e | [s' b]] eqn:Hdl.
    { destruct e; simpl; discriminate. }
    pose proof Hdl as Hsame. apply download_inv in Hsame as (-> & _).
    cbv beta iota delta [bind myprint ret generate try_except lift read rbind
                         Frame.submission Frame.downloaded].
    destruct (generate_html _ _ _ _ _ _ _ _) as [e | h] eqn:Hgen.
    { destruct e; simpl; discriminate. }
    intros H. injection H as <- <- <-.
    exists submission_id, b. rewrite <- app_assoc. auto.
  - intros (submission_id & b & Hid & Hget & Hdl & Hgen & ->).
    eapply scrape_url_run; eassumption.
Qed.

Lemma scrape_url_returns_witness :
  exists html,
    scrape_url archive_env "s" [] = (download_lines "s" nested_thread, inr (html, nested_thread)).
Proof.
  eexists. apply (proj2 (scrape_url_returns _ _ _ _ _ _)).
  exists "s", (built_of archive_env nested_thread "s").
  split; [reflexivity|]. split; [reflexivity|]. split; [reflexivity|].
  split; [vm_compute; reflexivity | reflexivity].
Defined.




(** X13. [main] only ever adds to the output.  When it ends with an
    [Exception], the last line it has written is the general complaint
    with the text of that exception, which is raised again; when it
    returns, the last line is the one that names the file saved. *)
Theorem main_reports (E : Env) (url : string) (out : list line) :
  exists added,
    fst (main E url out) = (out ++ added)%list
    /\ match snd (main E url out) with
       | inl e => is_Exception e = true -> exists front, added = (front ++ [uncaught_line E e])%list
       | inr _ => exists front filename, added = (front ++ [saved_line filename])%list
       end.
Proof.
  unfold main, try_except.
  set (body := bind (scrape_url E url) _).
  destruct (body out) as [out1 [e | x]] eqn:Hbody.
  - assert (Hb : appends body).
    { pose proof (appends_scrape_url E url). pose proof (appends_save E).
      subst body. appends. }
    destruct (Hb out) as (a1 & H1). rewrite Hbody in H1. simpl in H1. subst out1.
    destruct (is_Exception e) eqn:He.
    + exists (a1 ++ [uncaught_line E e])%list.
      cbv beta iota delta [bind myprint raise fst snd]. rewrite app_assoc.
      split; [reflexivity|]. intros _. exists a1. reflexivity.
    + exists a1. split; [reflexivity|]. simpl. congruence.
  - subst body. unfold bind in Hbody.
    destruct (appends_scrape_url E url out) as (a1 & H1).
    destruct (scrape_url E url out) as [o1 [e | r]]; [discriminate|].
    simpl in H1. subst o1.
    cbv beta iota delta [myprint lift] in Hbody.
    destruct (makedirs E); [discriminate|].
    destruct (appends_save E (fst r) (snd r)
                (((out ++ a1) ++ [info "[+] Submission structured."])%list)) as (a2 & H2).
    fold (info "[+] Submission structured.") in Hbody.
    destruct (save E (fst r) (snd r) _) as [o2 [e | filename]]; [discriminate|].
    simpl in H2. subst o2. injection Hbody as <- <-.
    exists ((a1 ++ [info "[+] Submission structured."] ++ a2) ++ [saved_line filename])%list.
    split; [|cbn [snd]; eauto]. cbn [fst]. rewrite <- !app_assoc. reflexivity.
Qed.

(** ** The balance of the markers *)












Lemma for_each_passes E forest nodes : forall v,
  Forall (fun node => String.eqb (Str.take 2 (name (fst node))) "t3" = true
                      \/ covered forest node) nodes ->
  exists v', for_each E forest nodes v = inr v'.
Proof.
  induction nodes as [|node nodes IH]; intros v H; [simpl; eauto|].
  apply Forall_cons in H as [Hn H]. cbn [for_each].
  destruct Hn as [Ht3 | Hcov].
  - unfold visit. rewrite Ht3. simpl rbind. apply IH, H.
  - rewrite (visit_covered _ _ _ _ Hcov). simpl rbind. apply IH, H.
Qed.

(** X15. [generate_html] on dictionaries that do not fit the tree: when
    the index has no entry for the submission, [KeyError] names the
    submission; otherwise the loop goes through the nodes in pre-order and
    stops at the first one that is not taken for a submission and has no
    entry in [comments_forest], with a [KeyError] that names it, whatever
    comes after it; no document is returned. *)
Theorem generate_html_key_error (E : Env) (submission : Submission.t)
        (submission_id now_str : string) (sort : option string) (tree : Node)
        (comments_index : gmap string nat) (comments_forest : gmap string Entry.entry) :
  (comments_index !! t3 submission_id = None ->
   generate_html E submission submission_id now_str sort tree comments_index comments_forest
   = inl (KeyError (t3 submission_id)))
  /\ (forall r root depth front node back,
        comments_index !! t3 submission_id = Some r ->
        find_node r 0 tree = Some (root, depth) ->
        preorder depth root = (front ++ node :: back)%list ->
        Forall (fun node => String.eqb (Str.take 2 (name (fst node))) "t3" = true
                            \/ covered comments_forest node) front ->
        String.eqb (Str.take 2 (name (fst node))) "t3" = false ->
        comments_forest !! name (fst node) = None ->
        generate_html E submission submission_id now_str sort tree
                      comments_index comments_forest
        = inl (KeyError (name (fst node)))).
Proof.
  unfold generate_html, render_comments. split.
  - intros ->. reflexivity.
  - intros r root depth front node back -> -> -> Hfront Ht3 Hnone.
    assert (Hrun : forall v, for_each E comments_forest (front ++ node :: back) v
                             = inl (KeyError (name (fst node)))).
    { clear -Hfront Ht3 Hnone. induction Hfront as [|n front Hn _ IH]; intros v.
      - cbn [app for_each]. unfold visit. rewrite Ht3, Hnone. reflexivity.
      - change ((n :: front) ++ node :: back)%list with (n :: (front ++ node :: back))%list.
        cbn [for_each].
        destruct (for_each_passes E comments_forest [n] v (Forall_cons_2 _ _ _ Hn (Forall_nil_2 _)))
          as (v' & Hv).
        cbn [for_each] in Hv. destruct (visit E comments_forest n v) as [e | v1];
          [discriminate|].
        simpl rbind. apply IH. }
    rewrite Hrun. reflexivity.
Qed.

Lemma generate_html_key_error_witness :
  generate_html sample_env flat_thread "s" "now" None
                (mkNode 0 "t3_s" [mkNode 1 "t1_a" [mkNode 2 "t1_b" []]])
                {[ "t3_s" := 0 ]} ∅
  = inl (KeyError "t1_a").
Proof.
  apply (proj2 (generate_html_key_error sample_env flat_thread "s" "now" None
                  (mkNode 0 "t3_s" [mkNode 1 "t1_a" [mkNode 2 "t1_b" []]])
                  {[ "t3_s" := 0 ]} ∅)
           0 (mkNode 0 "t3_s" [mkNode 1 "t1_a" [mkNode 2 "t1_b" []]]) 0
           [(mkNode 0 "t3_s" [mkNode 1 "t1_a" [mkNode 2 "t1_b" []]], 0)]
           (mkNode 1 "t1_a" [mkNode 2 "t1_b" []], 1)
           [(mkNode 2 "t1_b" [], 2)]); try reflexivity.
  constructor; [left; reflexivity | constructor].
Defined.

(** ** The tree that is rebuilt and the nesting of the thread *)

Lemma Nest_ind' (P : Nest -> Prop) :
  (forall l ks, Forall P ks -> P (T l ks)) -> forall s, P s.
Proof.
  intros H. fix IH 1. intros [l ks]. apply H.
  induction ks as [|k ks IHks]; constructor; [apply IH | exact IHks].
Qed.

Lemma Comment_ind' (P : Comment.t -> Prop) :
  (forall i p a b d e l o s t rs, Forall P rs -> P (Comment.mk i p a b d e l o s t rs)) ->
  forall c, P c.
Proof.
  intros H. fix IH 1. intros [i p a b d e l o s t rs]. apply H.
  induction rs as [|r rs IHrs]; constructor; [apply IH | exact IHrs].
Qed.

Lemma graft_absent p new s : ~ In p (labels s) -> graft p new s = s.
Proof.
  induction s as [l ks IH] using Nest_ind'. intros Hp. cbn [graft].
  destruct (String.eqb_spec l p) as [-> | Hne]; [exfalso; apply Hp; left; reflexivity|].
  rewrite app_nil_r. f_equal.
  assert (Hks : forall k, In k ks -> ~ In p (labels k)).
  { intros k Hk Hin. apply Hp. right. apply in_flat_map. eauto. }
  clear Hp. induction IH as [|k ks Hk _ IHks]; [reflexivity|].
  cbn [map]. rewrite Hk by (apply Hks; left; reflexivity).
  rewrite IHks by (intros k' Hk'; apply Hks; right; exact Hk'). reflexivity.
Qed.

Lemma graft_graft p1 n1 p2 n2 s :
  p1 <> p2 -> ~ In p2 (labels n1) ->
  graft p1 n1 (graft p2 n2 s) = graft p2 (graft p1 n1 n2) (graft p1 n1 s).
Proof.
  intros Hne H2. induction s as [l ks IH] using Nest_ind'. cbn [graft].
  rewrite !map_app, !map_map. f_equal. rewrite <- !app_assoc. f_equal.
  - clear -IH. induction IH as [|k ks Hk _ IHks]; [reflexivity|].
    cbn [map]. rewrite Hk, IHks. reflexivity.
  - destruct (String.eqb_spec l p2) as [E2 | Hl2];
      destruct (String.eqb_spec l p1) as [E1 | Hl1]; cbn [map app];
      try reflexivity; try congruence.
    rewrite (graft_absent p2 _ n1 H2). reflexivity.
Qed.

Lemma graft_swap p1 n1 p2 n2 s :
  p1 <> p2 -> ~ In p2 (labels n1) -> ~ In p1 (labels n2) ->
  graft p1 n1 (graft p2 n2 s) = graft p2 n2 (graft p1 n1 s).
Proof.
  intros Hne H2 H1. rewrite graft_graft by assumption.
  rewrite (graft_absent p1 n1 n2 H1). reflexivity.
Qed.

Lemma labels_graft p new s x :
  In x (labels (graft p new s)) <->
  In x (labels s) \/ (In p (labels s) /\ In x (labels new)).
Proof.
  induction s as [l ks IH] using Nest_ind'. cbn [graft labels].
  rewrite flat_map_app. cbn [In]. rewrite in_app_iff.
  assert (Hks : In x (flat_map labels (map (graft p new) ks)) <->
                In x (flat_map labels ks)
                \/ (In p (flat_map labels ks) /\ In x (labels new))).
  { clear -IH. induction IH as [|k ks Hk _ IHks]; [simpl; tauto|].
    cbn [map flat_map]. rewrite !in_app_iff, Hk, IHks. tauto. }
  rewrite Hks. destruct (String.eqb_spec l p) as [-> | Hne].
  - cbn [flat_map]. rewrite app_nil_r. tauto.
  - cbn [flat_map In]. tauto.
Qed.

Lemma fold_left_commute {S X Y} (f : S -> X -> S) (g : S -> Y -> S) (A : list X) (B : list Y) :
  (forall a b, In a A -> In b B -> forall s, f (g s b) a = g (f s a) b) ->
  forall s, fold_left f A (fold_left g B s) = fold_left g B (fold_left f A s).
Proof.
  revert B. induction A as [|a A IH]; intros B H s; [reflexivity|].
  cbn [fold_left]. rewrite <- IH by (intros; apply H; simpl; auto). f_equal.
  clear IH. revert s. induction B as [|b B IHB]; intros s; [reflexivity|].
  cbn [fold_left]. rewrite IHB by (intros; apply H; simpl; tauto).
  rewrite H by (simpl; auto). reflexivity.
Qed.

Lemma skeleton_eq c : skeleton c = T (t1 c) (map skeleton (Comment.replies c)).
Proof. destruct c. reflexivity. Qed.

Lemma labels_skeleton c : labels (skeleton c) = t1 c :: queue_labels (Comment.replies c).
Proof.
  rewrite skeleton_eq. cbn [labels]. f_equal. unfold queue_labels.
  rewrite flat_map_concat_map, map_map, <- flat_map_concat_map. reflexivity.
Qed.

Lemma well_nested_inv parent c :
  well_nested parent c = true ->
  Comment.parent_id c = parent
  /\ Forall (fun r => well_nested (Comment.parent_id r) r = true /\ Comment.parent_id r = t1 c)
            (Comment.replies c).
Proof.
  destruct c as [i p a b d e l o s t rs]. cbn [well_nested Comment.parent_id Comment.replies].
  intros H. apply andb_true_iff in H as [Hp Hrs]. apply String.eqb_eq in Hp.
  split; [exact Hp|]. rewrite forallb_forall in Hrs. apply List.Forall_forall.
  intros r Hr. specialize (Hrs r Hr). unfold t1. cbn [Comment.id].
  destruct r as [i' p' a' b' d' e' l' o' s' t' rs'].
  cbn [Comment.parent_id]. pose proof Hrs as Hrs'. cbn [well_nested] in Hrs'.
  apply andb_true_iff in Hrs' as [Hp' _]. apply String.eqb_eq in Hp'. subst p'.
  split; [exact Hrs | reflexivity].
Qed.

Lemma queue_labels_app a b : queue_labels (a ++ b) = (queue_labels a ++ queue_labels b)%list.
Proof. unfold queue_labels. apply flat_map_app. Qed.

Lemma queue_labels_cons c q :
  queue_labels (c :: q)
  = (t1 c :: queue_labels (Comment.replies c) ++ queue_labels q)%list.
Proof. unfold queue_labels at 1. cbn [flat_map]. rewrite labels_skeleton. reflexivity. Qed.

Lemma queue_labels_in r q x :
  In r q -> In x (labels (skeleton r)) -> In x (queue_labels q).
Proof. intros Hr Hx. unfold queue_labels. apply in_flat_map. eauto. Qed.

Lemma in_queue_labels_cons x c q :
  In x (queue_labels (c :: q)) <-> In x (labels (skeleton c)) \/ In x (queue_labels q).
Proof. unfold queue_labels. cbn [flat_map]. apply in_app_iff. Qed.

Lemma map_graft_absent p new ks :
  ~ In p (flat_map labels ks) -> map (graft p new) ks = ks.
Proof.
  induction ks as [|k ks IH]; intros H; [reflexivity|].
  cbn [map flat_map] in *. rewrite in_app_iff in H.
  rewrite graft_absent, IH by tauto. reflexivity.
Qed.

Lemma grow_replies n p s : n <> p -> ~ In n (labels s) ->
  forall rs ks,
  Forall (fun r => Comment.parent_id r = n) rs ->
  ~ In n (flat_map labels ks) -> ~ In n (queue_labels rs) -> ~ In p (queue_labels rs) ->
  fold_left grow_sub rs (graft p (T n ks) s) = graft p (T n (ks ++ map skeleton rs)) s.
Proof.
  intros Hne Hns. induction rs as [|r rs IH]; intros ks Hpar Hks Hn Hp.
  - cbn [fold_left map]. rewrite app_nil_r. reflexivity.
  - apply Forall_cons in Hpar as [Hr Hpar].
    rewrite in_queue_labels_cons in Hn, Hp.
    assert (Hn1 : ~ In n (labels (skeleton r))) by tauto.
    assert (Hn2 : ~ In n (queue_labels rs)) by tauto.
    assert (Hp1 : ~ In p (labels (skeleton r))) by tauto.
    assert (Hp2 : ~ In p (queue_labels rs)) by tauto.
    cbn [fold_left map]. unfold grow_sub at 2. rewrite Hr.
    rewrite graft_graft by assumption.
    rewrite (graft_absent n _ s Hns). cbn [graft]. rewrite String.eqb_refl.
    rewrite (map_graft_absent n _ ks Hks).
    rewrite IH; [rewrite <- app_assoc; reflexivity | exact Hpar | | exact Hn2 | exact Hp2].
    rewrite flat_map_app, in_app_iff. cbn [flat_map]. rewrite app_nil_r. tauto.
Qed.

Lemma grow_top root cs : forall ks,
  Forall (fun c => Comment.parent_id c = root) cs ->
  ~ In root (flat_map labels ks) -> ~ In root (queue_labels cs) ->
  fold_left grow_sub cs (T root ks) = T root (ks ++ map skeleton cs).
Proof.
  induction cs as [|c cs IH]; intros ks Hpar Hks Hcs.
  - cbn [fold_left map]. rewrite app_nil_r. reflexivity.
  - apply Forall_cons in Hpar as [Hc Hpar]. rewrite in_queue_labels_cons in Hcs.
    cbn [fold_left map]. unfold grow_sub at 2. rewrite Hc. cbn [graft].
    rewrite String.eqb_refl, (map_graft_absent root _ ks Hks).
    rewrite IH; [rewrite <- app_assoc; reflexivity | exact Hpar | | tauto].
    rewrite flat_map_app, in_app_iff. cbn [flat_map]. rewrite app_nil_r. tauto.
Qed.

Lemma queue_size_step c rest :
  queue_size (rest ++ Comment.replies c) < queue_size (c :: rest).
Proof.
  unfold queue_size. rewrite map_app, list_sum_app. destruct c; simpl. lia.
Qed.

(** grafting the comments one by one, level by level, gives what grafting
    each comment of the queue with everything under it gives *)
Lemma grow_level_order n : forall q, queue_size q < n -> forall s,
  Forall (fun c => In (Comment.parent_id c) (labels s)) q ->
  Forall (fun c => well_nested (Comment.parent_id c) c = true) q ->
  List.NoDup (queue_labels q) ->
  (forall x, In x (labels s) -> ~ In x (queue_labels q)) ->
  fold_left grow_leaf (dequeue_order q) s = fold_left grow_sub q s.
Proof.
  induction n as [|n IH]; intros q Hsize s Hpar Hnest Hnd Hdis; [lia|].
  destruct q as [|c rest]; [reflexivity|].
  simp dequeue_order. cbn [fold_left].
  apply Forall_cons in Hpar as [Hpc Hpar]. apply Forall_cons in Hnest as [Hnc Hnest].
  apply well_nested_inv in Hnc as [_ Hreplies].
  rewrite queue_labels_cons in Hnd. apply List.NoDup_cons_iff in Hnd as [Hc Hnd].
  rewrite in_app_iff in Hc.
  assert (Hc_s : ~ In (t1 c) (labels s)).
  { intros H. apply (Hdis _ H). rewrite in_queue_labels_cons, labels_skeleton.
    left. left. reflexivity. }
  assert (Hr_s : forall x, In x (labels s) -> ~ In x (queue_labels (Comment.replies c))).
  { intros x H Hin. apply (Hdis _ H). rewrite in_queue_labels_cons, labels_skeleton.
    left. right. exact Hin. }
  assert (Hq_s : forall x, In x (labels s) -> ~ In x (queue_labels rest)).
  { intros x H Hin. apply (Hdis _ H). rewrite in_queue_labels_cons. right. exact Hin. }
  rewrite IH.
  - rewrite fold_left_app, fold_left_commute.
    + f_equal. unfold grow_leaf.
      rewrite (grow_replies (t1 c) (Comment.parent_id c) s).
      * unfold grow_sub. rewrite (skeleton_eq c). reflexivity.
      * intros Heq. apply Hc_s. rewrite Heq. exact Hpc.
      * exact Hc_s.
      * eapply List.Forall_impl; [|exact Hreplies]. simpl. tauto.
      * simpl. tauto.
      * tauto.
      * apply Hr_s, Hpc.
    + intros a b Ha Hb s0. unfold grow_sub.
      rewrite List.Forall_forall in Hreplies, Hpar.
      destruct (Hreplies a Ha) as [_ Hpa]. rewrite Hpa. specialize (Hpar b Hb).
      apply graft_swap.
      * intros Heq. apply Hc_s. rewrite Heq. exact Hpar.
      * intros Hin. apply (Hr_s _ Hpar). eapply queue_labels_in; eassumption.
      * intros Hin. apply Hc. right. eapply queue_labels_in; eassumption.
  - pose proof (queue_size_step c rest). lia.
  - apply Forall_app. split.
    + eapply List.Forall_impl; [|exact Hpar]. intros b Hb. simpl in Hb.
      unfold grow_leaf. apply labels_graft. left. exact Hb.
    + eapply List.Forall_impl; [|exact Hreplies]. intros r [_ Hr]. simpl. rewrite Hr.
      unfold grow_leaf. apply labels_graft. right. split; [exact Hpc | left; reflexivity].
  - apply Forall_app. split; [exact Hnest|].
    eapply List.Forall_impl; [|exact Hreplies]. simpl. tauto.
  - rewrite queue_labels_app. eapply Permutation_NoDup; [apply Permutation_app_comm|].
    exact Hnd.
  - intros x Hx. unfold grow_leaf in Hx. apply labels_graft in Hx.
    rewrite queue_labels_app, in_app_iff.
    destruct Hx as [Hx | [_ [<- | []]]].
    + intros [H | H]; [exact (Hq_s _ Hx H) | exact (Hr_s _ Hx H)].
    + tauto.
Qed.

Lemma tags_ids t : map fst (tags t) = ids t.
Proof.
  induction t as [i nm ch IH] using Node_ind'. cbn [tags ids map fst]. f_equal.
  induction IH as [|c ch Hc _ IHch]; [reflexivity|].
  cbn [flat_map]. rewrite map_app, Hc, IHch. reflexivity.
Qed.

Lemma tags_labels t : map snd (tags t) = labels (nest t).
Proof.
  induction t as [i nm ch IH] using Node_ind'. cbn [tags nest labels map snd]. f_equal.
  induction IH as [|c ch Hc _ IHch]; [reflexivity|].
  cbn [flat_map map]. rewrite map_app, Hc, IHch. reflexivity.
Qed.

Lemma tags_rows t : forall par d,
  map (fun r => (NodeRow.id r, NodeRow.name r)) (rows par d t) = tags t.
Proof.
  induction t as [i nm ch IH] using Node_ind'. intros par d. cbn [tags rows map]. f_equal.
  generalize (Some i) (S d). intros par' d'.
  induction IH as [|c ch Hc _ IHch]; [reflexivity|].
  cbn [flat_map]. rewrite map_app, Hc, IHch. reflexivity.
Qed.

Lemma nodup_flat_map_in {A B} (f : A -> list B) (l : list A) (a : A) :
  List.NoDup (flat_map f l) -> In a l -> List.NoDup (f a).
Proof.
  induction l as [|x l IH]; intros Hnd Hin; [contradiction|].
  cbn [flat_map] in Hnd. destruct Hin as [<- | Hin].
  - apply NoDup_app_remove_r in Hnd. exact Hnd.
  - apply NoDup_app_remove_l in Hnd. apply IH; assumption.
Qed.

Lemma nest_attach p k new t :
  List.NoDup (ids t) ->
  (forall j x, In (j, x) (tags t) -> (j = p <-> x = k)) ->
  nest (attach p new t) = graft k (nest new) (nest t).
Proof.
  induction t as [i nm ch IH] using Node_ind'. intros Hnd H.
  cbn [attach nest graft]. cbn [ids] in Hnd. apply List.NoDup_cons_iff in Hnd as [Hi Hnd].
  assert (Hhead : i = p <-> nm = k) by (apply H; left; reflexivity).
  destruct (Nat.eqb_spec i p) as [Hip | Hip].
  - assert (nm = k) by tauto. subst nm p.
    cbn [nest]. rewrite String.eqb_refl, map_app. cbn [map]. f_equal. f_equal.
    symmetry. apply map_graft_absent. intros Hin.
    apply in_flat_map in Hin as (s & Hs & Hin). apply in_map_iff in Hs as (c & <- & Hc).
    rewrite <- tags_labels in Hin. apply in_map_iff in Hin as ([j x] & Hx & Hin).
    simpl in Hx. subst x.
    assert (Hj : j = i).
    { apply (H j k); [|reflexivity]. right. apply in_flat_map. eauto. }
    subst j. apply Hi. apply in_flat_map. exists c. split; [exact Hc|].
    rewrite <- tags_ids. apply in_map_iff. exists (i, k). auto.
  - assert (Hnm : nm <> k) by tauto.
    destruct (String.eqb_spec nm k) as [|_]; [contradiction|].
    cbn [nest]. rewrite app_nil_r, !map_map. f_equal.
    assert (Hch : forall c, In c ch ->
              List.NoDup (ids c) /\ forall j x, In (j, x) (tags c) -> (j = p <-> x = k)).
    { intros c Hc. split; [eapply nodup_flat_map_in; eassumption|].
      intros j x Hin. apply H. right. apply in_flat_map. eauto. }
    clear -IH Hch. induction IH as [|c ch Hc _ IHch]; [reflexivity|].
    cbn [map]. rewrite Hc, IHch; try (apply Hch; left; reflexivity).
    + reflexivity.
    + intros c' Hc'. apply Hch. right. exact Hc'.
Qed.

Lemma nodup_map_inj {A B} (f : A -> B) (l : list A) a b :
  List.NoDup (map f l) -> In a l -> In b l -> f a = f b -> a = b.
Proof.
  induction l as [|x l IH]; intros Hnd Ha Hb Heq; [contradiction|].
  cbn [map] in Hnd. apply List.NoDup_cons_iff in Hnd as [Hx Hnd].
  destruct Ha as [<- | Ha]; destruct Hb as [<- | Hb]; try reflexivity.
  - exfalso. apply Hx. rewrite Heq. apply in_map. exact Hb.
  - exfalso. apply Hx. rewrite <- Heq. apply in_map. exact Ha.
  - apply IH; assumption.
Qed.

(** the name of a node is the one of the comment its identity counts *)
Lemma inv_row_name sid done st r :
  inv sid done st -> In r (table st) ->
  nth_error (t3 sid :: map t1 done) (NodeRow.id r) = Some (NodeRow.name r).
Proof.
  intros I Hr.
  assert (Hnd : List.NoDup (ids (tree st))).
  { eapply Permutation_NoDup; [symmetry; apply (inv_ids _ _ _ I) | apply List.seq_NoDup]. }
  assert (Hlt : NodeRow.id r < S (List.length done)).
  { assert (H : In (NodeRow.id r) (seq 0 (fresh st))).
    { eapply Permutation_in; [apply (inv_ids _ _ _ I)|]. exact (in_rows_ids _ _ _ _ Hr). }
    apply in_seq in H. rewrite (inv_fresh _ _ _ I) in H. lia. }
  destruct (NodeRow.id r) as [|i] eqn:Hid.
  - destruct (inv_root _ _ _ I) as [H0 Hnm]. unfold table in Hr.
    destruct (tree st) as [j nm ch]. simpl in H0, Hnm. subst j nm.
    cbn [rows] in Hr. destruct Hr as [<- | Hr]; [reflexivity|].
    exfalso. cbn [ids] in Hnd. apply List.NoDup_cons_iff in Hnd as [H0 _]. apply H0.
    rewrite <- Hid. eapply in_rows_forest, Hr.
  - cbn [nth_error]. assert (Hi : i < List.length done) by lia.
    destruct (nth_error done i) as [c|] eqn:Hc; [|apply nth_error_None in Hc; lia].
    destruct (inv_nodes _ _ _ I _ _ Hc) as (r' & _ & Hr' & _ & Hid' & Hnm' & _).
    assert (r = r').
    { apply (nodup_map_inj NodeRow.id (table st)); try assumption.
      - unfold table. rewrite rows_ids. exact Hnd.
      - congruence. }
    subst r'. rewrite Hnm'. apply map_nth_error. exact Hc.
Qed.

Lemma inv_tags sid done st k p :
  inv sid done st -> List.NoDup (t3 sid :: map t1 done) ->
  comments_index st !! k = Some p ->
  forall j x, In (j, x) (tags (tree st)) -> (j = p <-> x = k).
Proof.
  intros I Hnd Hk j x Hin.
  destruct (inv_index _ _ _ I _ _ Hk) as (rp & Hrp & Hidp & Hnmp).
  pose proof (inv_row_name _ _ _ _ I Hrp) as Hp. rewrite Hidp, Hnmp in Hp.
  rewrite <- (tags_rows (tree st) None 0) in Hin.
  apply in_map_iff in Hin as (r & Heq & Hr). injection Heq as <- <-.
  pose proof (inv_row_name _ _ _ _ I Hr) as Hj.
  split.
  - intros Heq. rewrite Heq, Hp in Hj. congruence.
  - intros Heq. rewrite Heq, <- Hp in Hj.
    rewrite List.NoDup_nth_error in Hnd. apply Hnd; [|exact Hj].
    apply nth_error_Some. rewrite Hj, Hp. discriminate.
Qed.

Lemma process_all_nest sid todo : forall done st known,
  inv sid done st -> knows sid done known ->
  first_orphan known todo = None ->
  List.NoDup (t3 sid :: map t1 (done ++ todo)) ->
  exists st', process_all todo st = inr st' /\ inv sid (done ++ todo) st'
              /\ nest (tree st') = fold_left grow_leaf todo (nest (tree st)).
Proof.
  induction todo as [|c r IH]; intros done st known I K Ho Hnd.
  - exists st. rewrite app_nil_r. auto.
  - cbn [first_orphan] in Ho.
    destruct (existsb (String.eqb (Comment.parent_id c)) known) eqn:Hex; [|discriminate].
    apply existsb_known in Hex. apply K in Hex.
    assert (Hsome : is_Some (comments_index st !! Comment.parent_id c))
      by (apply (inv_keys _ _ _ I); exact Hex).
    destruct Hsome as [p Hp].
    destruct (process_inv sid done st c p I Hp) as (st1 & Hproc & I1).
    cbn [process_all]. rewrite Hproc. simpl rbind.
    destruct (IH (done ++ [c])%list st1 (t1 c :: known) I1 (knows_step _ _ _ _ K) Ho)
      as (st' & Hrun & I' & Hnest).
    { rewrite <- app_assoc. exact Hnd. }
    exists st'. rewrite <- app_assoc in I'. split; [exact Hrun|]. split; [exact I'|].
    rewrite Hnest. cbn [fold_left]. f_equal.
    unfold process in Hproc. rewrite Hp in Hproc. injection Hproc as <-. cbn [tree].
    unfold grow_leaf.
    apply (nest_attach p (Comment.parent_id c) (mkNode (fresh st) (t1 c) []) (tree st)).
    + eapply Permutation_NoDup; [symmetry; apply (inv_ids _ _ _ I) | apply List.seq_NoDup].
    + eapply inv_tags; [exact I | | exact Hp].
      rewrite map_app in Hnd.
      change (t3 sid :: map t1 done ++ map t1 (c :: r))%list
        with ((t3 sid :: map t1 done) ++ map t1 (c :: r))%list in Hnd.
      apply NoDup_app_remove_r in Hnd. exact Hnd.
Qed.

Lemma nested_no_orphan n : forall q, queue_size q < n -> forall known,
  Forall (fun c => In (Comment.parent_id c) known) q ->
  Forall (fun c => well_nested (Comment.parent_id c) c = true) q ->
  first_orphan known (dequeue_order q) = None.
Proof.
  induction n as [|n IH]; intros q Hsize known Hpar Hnest; [lia|].
  destruct q as [|c rest]; [reflexivity|].
  simp dequeue_order. cbn [first_orphan].
  apply Forall_cons in Hpar as [Hpc Hpar]. apply Forall_cons in Hnest as [Hnc Hnest].
  apply well_nested_inv in Hnc as [_ Hreplies].
  rewrite (proj2 (existsb_known _ _) Hpc). apply IH.
  - pose proof (queue_size_step c rest). lia.
  - apply Forall_app. split.
    + eapply List.Forall_impl; [|exact Hpar]. simpl. auto.
    + eapply List.Forall_impl; [|exact Hreplies]. intros r [_ ->]. left. reflexivity.
  - apply Forall_app. split; [exact Hnest|].
    eapply List.Forall_impl; [|exact Hreplies]. simpl. tauto.
Qed.

Lemma labels_flatten c : labels (skeleton c) = map t1 (flatten_comment c).
Proof.
  induction c as [i p a b d e l o s t rs IH] using Comment_ind'.
  cbn [skeleton labels flatten_comment map]. f_equal.
  induction IH as [|r rs Hr _ IHrs]; [reflexivity|].
  cbn [map flat_map]. rewrite map_app, Hr, IHrs. reflexivity.
Qed.

Lemma queue_labels_flatten q : queue_labels q = map t1 (flatten q).
Proof.
  unfold queue_labels, flatten. induction q as [|c q IH]; [reflexivity|].
  cbn [flat_map]. rewrite map_app, labels_flatten, IH. reflexivity.
Qed.

Lemma walk_nest t : forall d,
  map (fun node => (name (fst node), snd node)) (preorder d t) = walk d (nest t).
Proof.
  induction t as [i nm ch IH] using Node_ind'. intros d. cbn [preorder nest walk map].
  f_equal. generalize (S d). intros d'.
  induction IH as [|c ch Hc _ IHch]; [reflexivity|].
  cbn [flat_map map]. rewrite map_app, Hc, IHch. reflexivity.
Qed.

Lemma walk_skeleton c : forall d, walk d (skeleton c) = outline d c.
Proof.
  induction c as [i p a b d0 e l o s t rs IH] using Comment_ind'. intros d.
  cbn [skeleton walk outline]. f_equal. generalize (S d). intros d'.
  induction IH as [|r rs Hr _ IHrs]; [reflexivity|].
  cbn [flat_map map]. rewrite Hr, IHrs. reflexivity.
Qed.

Lemma map_tail {A B} (f : A -> B) (l : list A) : map f (tl l) = tl (map f l).
Proof. destruct l; reflexivity. Qed.

Lemma nodup_t1 (l : list Comment.t) :
  List.NoDup (map Comment.id l) -> List.NoDup (map t1 l).
Proof.
  induction l as [|c l IH]; intros H; [constructor|].
  cbn [map] in *. apply List.NoDup_cons_iff in H as [Hc H].
  constructor; [|apply IH, H]. intros Hin. apply Hc.
  apply in_map_iff in Hin as (c' & Heq & Hc'). apply in_map_iff. exists c'.
  split; [|exact Hc']. unfold t1 in Heq. injection Heq. auto.
Qed.

(** X16. A thread in which every reply names the comment it is nested
    under, every top-level comment names the submission, and no two
    comments share an identifier, is rebuilt as it is nested: the download
    goes through, the tree has the submission at its root and under it the
    comments with their replies, in the order of the platform, and the
    walk that renders them meets the comments depth first, each at the
    depth of its nesting. *)
Theorem download_rebuilds_nesting (E : Env) (submission : Submission.t)
        (submission_id : string) :
  replace_more E submission = None ->
  forallb (well_nested (t3 submission_id)) (Submission.comments submission) = true ->
  List.NoDup (map Comment.id (flatten (Submission.comments submission))) ->
  exists b,
    download_submission E submission submission_id = inr (submission, b)
    /\ nest (tree b)
       = T (t3 submission_id) (map skeleton (Submission.comments submission))
    /\ map (fun node => (name (fst node), snd node)) (real_nodes (tree b))
       = flat_map (outline 1) (Submission.comments submission).
Proof.
  intros Hmore Hnest Hids.
  set (q := Submission.comments submission) in *.
  assert (Hq : Forall (fun c => Comment.parent_id c = t3 submission_id
                                /\ well_nested (Comment.parent_id c) c = true) q).
  { apply List.Forall_forall. intros c Hc. rewrite forallb_forall in Hnest.
    specialize (Hnest c Hc). destruct (well_nested_inv _ _ Hnest) as [-> _]. auto. }
  assert (Hlab : List.NoDup (queue_labels q)).
  { rewrite queue_labels_flatten. apply nodup_t1, Hids. }
  assert (Hroot : ~ In (t3 submission_id) (queue_labels q)).
  { rewrite queue_labels_flatten. intros Hin. apply in_map_iff in Hin as (c & Heq & _).
    exact (t1_neq_t3 _ _ Heq). }
  destruct (process_all_nest submission_id (dequeue_order q) [] (start submission_id)
              [t3 submission_id] (inv_start _) (knows_start _))
    as (b & Hrun & _ & Htree).
  { apply (nested_no_orphan (S (queue_size q))); [lia | |];
      (eapply List.Forall_impl; [|exact Hq]); simpl; intros c [Hc Hn];
      [left; symmetry; exact Hc | exact Hn]. }
  { cbn [app]. constructor.
    - intros Hin. apply in_map_iff in Hin as (c & Heq & _). exact (t1_neq_t3 _ _ Heq).
    - eapply Permutation_NoDup;
        [apply Permutation_map; symmetry; apply dequeue_flatten|].
      rewrite <- queue_labels_flatten. exact Hlab. }
  assert (Hb : nest (tree b) = T (t3 submission_id) (map skeleton q)).
  { rewrite Htree. cbn [start tree nest map].
    rewrite (grow_level_order (S (queue_size q))).
    - apply (grow_top (t3 submission_id) q []); [| simpl; tauto | exact Hroot].
      eapply List.Forall_impl; [|exact Hq]. simpl. tauto.
    - lia.
    - eapply List.Forall_impl; [|exact Hq]. simpl. intros c [Hc _]. left. symmetry. exact Hc.
    - eapply List.Forall_impl; [|exact Hq]. simpl. tauto.
    - exact Hlab.
    - intros x [<- | []]. exact Hroot. }
  exists b. split; [|split; [exact Hb|]].
  - unfold download_submission. rewrite Hmore. fold q.
    rewrite fill_process_all, Hrun. reflexivity.
  - unfold real_nodes. rewrite map_tail, walk_nest, Hb. cbn [walk tl].
    rewrite flat_map_concat_map, map_map, <- flat_map_concat_map.
    apply flat_map_ext. intros c. apply walk_skeleton.
Qed.

Lemma download_rebuilds_nesting_witness :
  exists b,
    download_submission sample_env nested_thread "s" = inr (nested_thread, b)
    /\ map (fun node => (name (fst node), snd node)) (real_nodes (tree b))
       = [ ("t1_a", 1); ("t1_b", 2); ("t1_c", 2); ("t1_d", 1) ].
Proof.
  destruct (download_rebuilds_nesting sample_env nested_thread "s") as (b & Hb & _ & Hwalk).
  - reflexivity.
  - reflexivity.
  - simpl. repeat (constructor; [simpl; intuition discriminate|]). constructor.
  - exists b. split; [exact Hb | exact Hwalk].
Defined.

(** ** The line feed that ends the converted text *)

Lemma starts_app_l p a b : Str.starts p a = true -> Str.starts p (a ++ b) = true.
Proof.
  revert a. induction p as [|x p IH]; intros a H; [reflexivity|].
  destruct a as [|y a]; [discriminate|].
  change (String y a ++ b) with (String y (a ++ b)). cbn [Str.starts] in *.
  destruct (Ascii.eqb x y); [apply IH, H | discriminate].
Qed.

Lemma replace_char_app c new a b :
  Str.replace_from (String c "") new 0 (a ++ b)
  = Str.replace_from (String c "") new 0 a ++ Str.replace_from (String c "") new 0 b.
Proof.
  induction a as [|x a IH]; [reflexivity|].
  change (String x a ++ b) with (String x (a ++ b)).
  cbn [Str.replace_from Str.starts String.length Nat.sub].
  destruct (Ascii.eqb c x).
  - rewrite IH, append_assoc. reflexivity.
  - rewrite IH. reflexivity.
Qed.

Lemma replace_pair_keeps_end new body : forall skip,
  skip = 0 \/ (skip = 1 /\ Str.starts (String "010" "") body = true) ->
  ends_with_newline body = false ->
  Str.replace_from (String "010" (String "010" "")) new skip (body ++ String "010" "")
  = Str.replace_from (String "010" (String "010" "")) new skip body ++ String "010" "".
Proof.
  induction body as [|c r IH]; intros skip Hskip Hend.
  - destruct Hskip as [-> | [_ H]]; [reflexivity | discriminate].
  - assert (Hr : ends_with_newline r = false).
    { destruct r as [|c' r']; [reflexivity | exact Hend]. }
    change (String c r ++ String "010" "") with (String c (r ++ String "010" "")).
    destruct Hskip as [-> | [-> Hc]].
    + cbn [Str.replace_from].
      destruct (Str.starts (String "010" (String "010" "")) (String c r)) eqn:Hs.
      * rewrite (starts_app_l _ _ (String "010" "") Hs
                 : Str.starts _ (String c (r ++ String "010" "")) = true).
        rewrite IH; [rewrite append_assoc; reflexivity | | exact Hr].
        right. split; [reflexivity|].
        cbn [Str.starts] in Hs |- *. destruct (Ascii.eqb "010" c); [|discriminate].
        destruct r as [|c' r']; [discriminate|].
        cbn [Str.starts]. destruct (Ascii.eqb "010" c'); [reflexivity | discriminate].
      * destruct (Str.starts (String "010" (String "010" ""))
                             (String c (r ++ String "010" ""))) eqn:Hs'.
        -- exfalso. cbn [Str.starts] in Hs, Hs'.
           destruct (Ascii.eqb "010" c) eqn:Hc; [|discriminate].
           destruct r as [|c' r'].
           ++ rewrite Ascii.eqb_sym in Hc. cbn [ends_with_newline] in Hend. congruence.
           ++ change (String c' r' ++ String "010" "")
                with (String c' (r' ++ String "010" "")) in Hs'.
              cbv beta iota in Hs'. destruct (Ascii.eqb "010" c'); discriminate.
        -- rewrite IH by (auto). reflexivity.
    + cbn [Str.replace_from]. apply IH; [left; reflexivity | exact Hr].
Qed.

Lemma drop_app_length a b : Str.drop (String.length a) (a ++ b) = b.
Proof. induction a as [|c a IH]; [destruct b; reflexivity|]. exact IH. Qed.

(** X17. The [<br>] that [comment_parser] removes is the line feed that
    ends the converted text: when the conversion returns a text followed
    by one line feed, the result is that text with its pairs of line feeds
    turned into paragraph breaks and its other line feeds into [<br>];
    nothing of the last line feed is left, and nothing else is cut. *)
Theorem comment_parser_final_newline (E : Env) (initial_text body : string) :
  markdown E (Str.replace ">" "&gt;" (Str.replace "<" "&lt;" initial_text)) = body ++ nl ->
  ends_with_newline body = false ->
  comment_parser E initial_text = breaks body.
Proof.
  intros Hmd Hend.
  assert (Htext : Str.replace nl "<br>" (Str.replace (nl ++ nl) "</p><p>" (body ++ nl))
                  = breaks body ++ "<br>").
  { unfold breaks, Str.replace.
    change (Str.replace_from (nl ++ nl) "</p><p>" 0 (body ++ nl))
      with (Str.replace_from (String "010" (String "010" "")) "</p><p>" 0
                             (body ++ String "010" "")).
    rewrite replace_pair_keeps_end by (auto).
    change nl with (String "010" "") at 1. rewrite replace_char_app. reflexivity. }
  unfold comment_parser. rewrite Hmd. cbv zeta. rewrite Htext.
  unfold Str.last_n, Str.drop_last. rewrite length_append.
  change (String.length "<br>") with 4. rewrite Nat.add_sub.
  rewrite drop_app_length, take_app_length. reflexivity.
Qed.

Lemma comment_parser_final_newline_witness :
  comment_parser sample_env ("one" ++ nl ++ "two") = "<p>one<br>two</p>".
Proof.
  apply (comment_parser_final_newline sample_env ("one" ++ nl ++ "two")
           ("<p>one" ++ nl ++ "two</p>")); reflexivity.
Defined.
